(** * OCR-PROJECT: the text normaliser, the recognition records, the batch
      driver and the image pipeline, embedded from the Python sources

    Sources embedded here: [ocr_engine.py] (class [OCREngine]),
    [image_processor.py] (class [ImageProcessor]) and, of [main.py], the one
    call that the export dialog makes on the engine.

    Conventions of the embedding.
    - A Python [str] is a list of Unicode code points ([text]).
    - A Python [dict] with literal keys is an insertion-ordered association
      list ([record]); a key that was never stored is absent.
    - A Python exception is the [Raise] branch of [result], carrying [str(e)].
    - The recognition engine, the imaging library, the file system and the
      standard output are collaborators the sources call but do not
      implement: they are the fields of [World] and of [Pillow].
    - A Python [float] is the rational it denotes; the true division of two
      integers is exact, except in [resize_image], where the quotients and
      products are truncated to integers afterwards: there they go through
      a rounding function [fl], constrained only by the usual relative
      error bound.

    The file has three parts: the model of the sources, the definitions used
    to state properties of it together with concrete collaborators, and the
    facts. *)

From Stdlib Require Import NArith ZArith QArith Qround List Bool String Ascii Lia Lqa.
Import ListNotations.

(* ================================================================== *)
(** * Part I. The model *)
(* ================================================================== *)

(* ================================================================== *)
(** * Python strings *)
(* ================================================================== *)

Definition text := list N.

Definition NL : N := 10.
Definition SP : N := 32.

(** A literal of the source, as code points. *)
Definition lit (s : string) : text := map N_of_ascii (list_ascii_of_string s).

(** [str.isspace] for one character, which is also what [\s] matches in a
    [str] pattern and what [str.strip()] removes: U+0009..U+000D,
    U+001C..U+0020, U+0085, U+00A0, U+1680, U+2000..U+200A, U+2028, U+2029,
    U+202F, U+205F, U+3000. *)
Definition is_space (c : N) : bool :=
  ((9 <=? c) && (c <=? 13) || (28 <=? c) && (c <=? 32) || (c =? 133) || (c =? 160)
   || (c =? 5760) || (8192 <=? c) && (c <=? 8202) || (c =? 8232) || (c =? 8233)
   || (c =? 8239) || (c =? 8287) || (c =? 12288))%N.

(** [str.lstrip()], [str.rstrip()], [str.strip()]. *)
Fixpoint lstrip (s : text) : text :=
  match s with
  | [] => []
  | c :: r => if is_space c then lstrip r else s
  end.

Fixpoint rstrip (s : text) : text :=
  match s with
  | [] => []
  | c :: r =>
      match rstrip r with
      | [] => if is_space c then [] else [c]
      | r' => c :: r'
      end
  end.

Definition strip (s : text) : text := rstrip (lstrip s).

(** [s.split('\n')]: the pieces between line feeds; never an empty list. *)
Fixpoint split_nl (s : text) : list text :=
  match s with
  | [] => [[]]
  | c :: r =>
      if (c =? NL)%N then [] :: split_nl r
      else match split_nl r with
           | l :: ls => (c :: l) :: ls
           | [] => [[c]]
           end
  end.

(** ['\n'.join(pieces)]. *)
Fixpoint join_nl (ls : list text) : text :=
  match ls with
  | [] => []
  | l :: ls' =>
      match ls' with
      | [] => l
      | _ :: _ => l ++ NL :: join_nl ls'
      end
  end.

(** [len(s.split())]: the number of maximal runs of non-whitespace. *)
Fixpoint count_words (in_word : bool) (s : text) : Z :=
  match s with
  | [] => 0
  | c :: r =>
      if is_space c then count_words false r
      else if in_word then count_words true r
      else 1 + count_words true r
  end%Z.

(* ================================================================== *)
(** * [OCREngine._clean_text] *)
(* ================================================================== *)

(** [re.sub(r'\s+', ' ', s)]: every maximal run of whitespace becomes one
    space.  [in_run] says that the previous character belonged to a run
    whose space has been emitted. *)
Fixpoint sub_spaces (in_run : bool) (s : text) : text :=
  match s with
  | [] => []
  | c :: r =>
      if is_space c then
        if in_run then sub_spaces true r else SP :: sub_spaces true r
      else c :: sub_spaces false r
  end.

(** Length of the maximal whitespace prefix. *)
Fixpoint space_run (s : text) : nat :=
  match s with
  | [] => 0
  | c :: r => if is_space c then S (space_run r) else 0
  end.

(** Among the first [n] characters of [s], one past the position of the last
    line feed. *)
Fixpoint last_nl (n : nat) (s : text) : option nat :=
  match n, s with
  | S n', c :: r =>
      match last_nl n' r with
      | Some k => Some (S k)
      | None => if (c =? NL)%N then Some 1%nat else None
      end
  | _, _ => None
  end.

(** How many characters [\s*\n] consumes at the head of [s]: the greedy [\s*]
    takes the whole whitespace run and backtracks to its last line feed. *)
Definition blank_tail (s : text) : option nat := last_nl (space_run s) s.

(** [re.sub(r'\n\s*\n', '\n\n', s)], scanning left to right; [skip] counts
    the characters still covered by the match just replaced. *)
Fixpoint sub_blank_lines (skip : nat) (s : text) : text :=
  match s with
  | [] => []
  | c :: r =>
      match skip with
      | S k => sub_blank_lines k r
      | O =>
          if (c =? NL)%N then
            match blank_tail r with
            | Some n => NL :: NL :: sub_blank_lines n r
            | None => c :: sub_blank_lines 0 r
            end
          else c :: sub_blank_lines 0 r
      end
  end.

Section CleanText.

(** [\w] on a [str] pattern matches [[a-zA-Z0-9_]] and every non-ASCII
    character that Unicode classes as alphanumeric.  The Unicode table is
    not part of the sources: it is a variable. *)
Variable alnum : N -> bool.

Definition is_word (c : N) : bool :=
  if (c <? 128)%N then
    ((48 <=? c) && (c <=? 57) || (65 <=? c) && (c <=? 90)
     || (97 <=? c) && (c <=? 122) || (c =? 95))%N
  else alnum c.

(** The characters listed literally in the class of the first pattern: full
    stop, comma, exclamation mark, question mark, semicolon, colon, hyphen,
    apostrophe, double quote, line feed, and the round, square and curly
    brackets. *)
Definition is_listed (c : N) : bool :=
  existsb (N.eqb c) [46; 44; 33; 63; 59; 58; 45; 39; 34; 10; 40; 41; 91; 93; 123; 125]%N.

(** A character survives the first [re.sub], whose pattern is the negated
    class of [\w], [\s] and the listed characters, when that class does not
    match it. *)
Definition kept (c : N) : bool := is_word c || is_space c || is_listed c.

Definition strip_special (s : text) : text := filter kept s.

Definition _clean_text (t : text) : text :=
  match t with
  | [] => []
  | _ :: _ =>
      let cleaned := strip_special t in
      let cleaned := sub_spaces false cleaned in
      let cleaned := sub_blank_lines 0 cleaned in
      let cleaned := join_nl (map strip (split_nl cleaned)) in
      strip cleaned
  end.

End CleanText.

(* ================================================================== *)
(** * Exceptions, dictionaries and the collaborators *)
(* ================================================================== *)

(** The outcome of a Python expression: a value, or an exception [e] known
    by [str(e)], which is all the sources ever read of it. *)
Inductive result (A : Type) : Type :=
| Ok (a : A)
| Raise (msg : text).
Arguments Ok {A} a.
Arguments Raise {A} msg.

Definition bind {A B : Type} (r : result A) (k : A -> result B) : result B :=
  match r with
  | Ok a => k a
  | Raise msg => Raise msg
  end.

Notation "x <- r ;; k" := (bind r (fun x => k))
  (at level 61, r at next level, right associativity).

(** One recognised word of [_extract_word_boxes]. *)
Record word_box := {
  wb_text : text;
  wb_confidence : Z;
  wb_bbox : Z * Z * Z * Z;
  wb_line_num : Z;
  wb_block_num : Z
}.

Inductive value :=
| VNone
| VBool (b : bool)
| VInt (z : Z)
| VFloat (q : Q)
| VStr (s : text)
| VSize (wh : Z * Z)
| VBoxes (l : list word_box).

(** A result dictionary: keys in insertion order, each at most once. *)
Definition record := list (string * value).

Fixpoint dict_get (k : string) (d : record) : option value :=
  match d with
  | [] => None
  | (k', v) :: d' => if String.eqb k k' then Some v else dict_get k d'
  end.

(** [d[k] = v]: overwrite in place, or append a new key. *)
Fixpoint dict_set (k : string) (v : value) (d : record) : record :=
  match d with
  | [] => [(k, v)]
  | (k', v') :: d' =>
      if String.eqb k k' then (k, v) :: d' else (k', v') :: dict_set k v d'
  end.

(** [d[k]], which raises [KeyError] on an absent key; [str] of that error is
    the quoted key. *)
Definition dict_item (k : string) (d : record) : result value :=
  match dict_get k d with
  | Some v => Ok v
  | None => Raise (lit "'" ++ lit k ++ lit "'")
  end.

(** Truth value of [r['success']]. *)
Definition truthy (v : value) : bool :=
  match v with
  | VNone => false
  | VBool b => b
  | VInt z => negb (z =? 0)%Z
  | VFloat q => negb (Qeq_bool q 0)
  | VStr s => match s with [] => false | _ => true end
  | VSize _ => true
  | VBoxes l => match l with [] => false | _ => true end
  end.

(** The number a value stands for in [sum(...)]; anything else is a
    [TypeError]. *)
Definition as_number (v : value) : result Q :=
  match v with
  | VInt z => Ok (inject_Z z)
  | VFloat q => Ok q
  | VBool b => Ok (if b then 1 else 0)
  | _ => Raise (lit "unsupported operand type(s) for +")
  end.

(** [a / b] on numbers. *)
Definition py_truediv (a b : Q) : result Q :=
  if Qeq_bool b 0 then Raise (lit "division by zero") else Ok (Qred (a / b)).

Definition len {A : Type} (l : list A) : Z := Z.of_nat (List.length l).

(** [sum(l)] of integers: the left fold from 0. *)
Definition py_sum (l : list Z) : Z := fold_left Z.add l 0%Z.

(** [sum(l)] of numbers. *)
Definition py_qsum (l : list Q) : Q := fold_left Qplus l 0.

(** [l[i]], which raises [IndexError] past the end. *)
Definition item {A : Type} (l : list A) (i : nat) : result A :=
  match nth_error l i with
  | Some a => Ok a
  | None => Raise (lit "list index out of range")
  end.

(** A picture: its size (width, height), its mode, the format of the file
    it was decoded from, if any, and its pixels. *)
Record Image := {
  img_size : Z * Z;
  img_mode : text;
  img_format : option text;
  img_pixels : list N
}.

(** The columns of [pytesseract.image_to_data(..., output_type=DICT)] that the
    sources read.  The engine reports a confidence as an integer, and -1 for
    a row that carries no score. *)
Record tess_data := {
  td_level : list Z;
  td_conf : list Z;
  td_text : list text;
  td_left : list Z;
  td_top : list Z;
  td_width : list Z;
  td_height : list Z;
  td_line_num : list Z;
  td_block_num : list Z
}.

(** One line of the detailed part of the batch report. *)
Inductive report_line :=
| LineSuccess (filename : value) (confidence : Q) (characters words : value) (preview : text)
| LineFailed (filename : value) (error : value).

(** What [_save_batch_report] writes, before it is laid out as text. *)
Record batch_report := {
  br_total : Z;
  br_successful : Z;
  br_failed : Z;
  br_aggregates : option (Q * Q);
  br_lines : list report_line
}.

Inductive file_content :=
| TextFile (t : text)
| JsonFile (r : record)
| ReportFile (r : batch_report).

(** The lines that [batch_process] prints: the progress line of an input,
    the preview and the confidence of a recognised one, the error of one
    that was not recognised, and the failure caught by the handler. *)
Inductive notice :=
| Processing (index total : Z) (name : text)
| Recognised (preview : text)
| ConfidenceLine (confidence : Q)
| ErrorLine (error : value)
| FailedLine (msg : text).

(** The collaborators of [OCREngine]: the recognition engine, the image
    decoder, the file system and the standard output.  None is implemented
    by the sources. *)
Record World := {
  image_to_string : Image -> text -> text -> Z -> result text;
  image_to_data : Image -> text -> text -> result tess_data;
  convert : Image -> text -> result Image;
  str_lower : text -> text;
  image_open : text -> result Image;
  path_exists : text -> bool;
  makedirs : text -> result unit;
  basename : text -> text;
  splitext : text -> text;
  path_join : text -> text -> text;
  write_file : text -> file_content -> result unit;
  unicode_alnum : N -> bool;
  print_line : notice -> result unit
}.

(* ================================================================== *)
(** * [OCREngine] *)
(* ================================================================== *)

Definition text_eqb (a b : text) : bool :=
  if list_eq_dec N.eq_dec a b then true else false.

(** [OCREngine.LANGUAGE_MAP]. *)
Definition LANGUAGE_MAP : list (text * text) :=
  [ (lit "indonesian", lit "ind"); (lit "english", lit "eng");
    (lit "french", lit "fra"); (lit "spanish", lit "spa");
    (lit "german", lit "deu"); (lit "chinese", lit "chi_sim");
    (lit "japanese", lit "jpn"); (lit "korean", lit "kor");
    (lit "arabic", lit "ara"); (lit "ind+eng", lit "ind+eng");
    (lit "eng+ind", lit "eng+ind") ].

(** [m.get(k, default)]. *)
Fixpoint map_get (m : list (text * text)) (k default : text) : text :=
  match m with
  | [] => default
  | (k', v) :: m' => if text_eqb k k' then v else map_get m' k default
  end.

(** [self.performance_stats]. *)
Record stats := {
  total_images : Z;
  successful : Z;
  failed : Z;
  total_chars : Z
}.

(** The two attributes of an engine that its methods update.  (The
    Tesseract path, set once by the constructor, is read by none of the
    methods below.) *)
Record engine := {
  ocr_results : list record;
  performance_stats : stats
}.

(** [OCREngine.__init__]. *)
Definition init : engine :=
  {| ocr_results := [];
     performance_stats :=
       {| total_images := 0; successful := 0; failed := 0; total_chars := 0 |} |}.

(** [[int(c) for c in data['conf'] if int(c) > 0]]. *)
Definition confidences (data : tess_data) : list Z :=
  filter (fun c => (0 <? c)%Z) (td_conf data).

(** [sum(confidences) / len(confidences) if confidences else 0]. *)
Definition avg_confidence (confidences : list Z) : result value :=
  match confidences with
  | [] => Ok (VInt 0)
  | _ :: _ =>
      q <- py_truediv (inject_Z (py_sum confidences)) (inject_Z (len confidences)) ;;
      Ok (VFloat q)
  end.

(** One turn of the loop of [_extract_word_boxes]. *)
Definition word_box_at (data : tess_data) (i : nat) : result (option word_box) :=
  c <- item (td_conf data) i ;;
  if (0 <? c)%Z then
    t <- item (td_text data) i ;;
    match strip t with
    | [] => Ok None
    | _ :: _ =>
        l <- item (td_left data) i ;;
        tp <- item (td_top data) i ;;
        wd <- item (td_width data) i ;;
        h <- item (td_height data) i ;;
        ln <- item (td_line_num data) i ;;
        bn <- item (td_block_num data) i ;;
        Ok (Some {| wb_text := t; wb_confidence := c;
                    wb_bbox := (l, tp, l + wd, tp + h)%Z;
                    wb_line_num := ln; wb_block_num := bn |})
    end
  else Ok None.

Fixpoint word_boxes_loop (data : tess_data) (indices : list nat) (words : list word_box)
  : result (list word_box) :=
  match indices with
  | [] => Ok words
  | i :: rest =>
      b <- word_box_at data i ;;
      word_boxes_loop data rest
        (match b with Some wb => words ++ [wb] | None => words end)
  end.

(** [OCREngine._extract_word_boxes]. *)
Definition _extract_word_boxes (data : tess_data) : result (list word_box) :=
  word_boxes_loop data (seq 0 (List.length (td_level data))) [].

(** [result['filename'] = filename] followed by [result['filepath'] =
    filepath], the two assignments of [batch_process] on a returned
    record. *)
Definition tag (filename filepath : text) (r : record) : record :=
  dict_set "filepath" (VStr filepath) (dict_set "filename" (VStr filename) r).

Section Engine.

Variable w : World.

Definition clean (t : text) : text := _clean_text (unicode_alnum w) t.

(** The body of the [try] of [extract_text] from the first recognition call
    up to the result dictionary (returned with the local [cleaned_text]), for
    the image in its final mode. *)
Definition recognise (image : Image) (language lang_code config : text) (timeout : Z)
  : result (record * text) :=
  text <- image_to_string w image lang_code config timeout ;;
  data <- image_to_data w image lang_code config ;;
  avg <- avg_confidence (confidences data) ;;
  let cleaned_text := clean text in
  boxes <- _extract_word_boxes data ;;
  Ok ([("success", VBool true);
       ("text", VStr cleaned_text);
       ("raw_text", VStr text);
       ("language", VStr language);
       ("language_code", VStr lang_code);
       ("confidence", avg);
       ("word_count", VInt (count_words false cleaned_text));
       ("char_count", VInt (len cleaned_text));
       ("image_size", VSize (img_size image));
       ("config", VStr config);
       ("word_boxes", VBoxes boxes);
       ("error", VNone) ]%string, cleaned_text).

(** The dictionary built by the [except] branch of [extract_text]; [image]
    is the local variable as it stands when the exception arrives. *)
Definition error_result (image : Image) (language msg : text) : record :=
  [ ("success", VBool false);
    ("text", VStr []);
    ("raw_text", VStr []);
    ("language", VStr language);
    ("confidence", VInt 0);
    ("word_count", VInt 0);
    ("char_count", VInt 0);
    ("error", VStr msg);
    ("image_size", VSize (img_size image)) ]%string.

Definition record_success (self : engine) (r : record) (chars : Z) : engine :=
  let st := performance_stats self in
  {| ocr_results := ocr_results self ++ [r];
     performance_stats :=
       {| total_images := total_images st + 1;
          successful := successful st + 1;
          failed := failed st;
          total_chars := total_chars st + chars |} |}%Z.

Definition record_failure (self : engine) (r : record) : engine :=
  let st := performance_stats self in
  {| ocr_results := ocr_results self ++ [r];
     performance_stats :=
       {| total_images := total_images st + 1;
          successful := successful st;
          failed := failed st + 1;
          total_chars := total_chars st |} |}%Z.

Definition supported_mode (m : text) : bool :=
  existsb (text_eqb m) [lit "L"; lit "RGB"; lit "RGBA"].

(** The image handed to the recognition engine: converted to RGB unless its
    mode is one of L, RGB, RGBA. *)
Definition ensure_mode (image : Image) : result Image :=
  if supported_mode (img_mode image) then Ok image else convert w image (lit "RGB").

(** [OCREngine.extract_text]: the engine afterwards and the dictionary
    returned.  The method itself never raises. *)
Definition extract_text (self : engine) (image : Image) (language config : text)
  (timeout : Z) : engine * record :=
  let lang_code := map_get LANGUAGE_MAP (str_lower w language) language in
  let fail image msg :=
    let r := error_result image language msg in (record_failure self r, r) in
  match ensure_mode image with
  | Raise msg => fail image msg
  | Ok image' =>
      match recognise image' language lang_code config timeout with
      | Raise msg => fail image' msg
      | Ok (r, cleaned_text) => (record_success self r (len cleaned_text), r)
      end
  end.

(** [dict.get(k, default)]. *)
Definition dict_get_default (k : string) (default : value) (d : record) : value :=
  match dict_get k d with
  | Some v => v
  | None => default
  end.

(** [r['success']] as a condition. *)
Definition success_of (r : record) : result bool :=
  v <- dict_item "success" r ;; Ok (truthy v).

Definition as_text (v : value) : result text :=
  match v with
  | VStr s => Ok s
  | _ => Raise (lit "expected str")
  end.

(** [OCREngine._save_single_result]. *)
Definition _save_single_result (res : record) (output_dir : text) : result unit :=
  ok <- success_of res ;;
  if negb ok then Ok tt
  else
    filename <- (v <- dict_item "filename" res ;; as_text v) ;;
    let base_name := splitext w filename in
    let txt_path := path_join w output_dir (base_name ++ lit ".txt") in
    t <- (v <- dict_item "text" res ;; as_text v) ;;
    _ <- write_file w txt_path (TextFile t) ;;
    let json_path := path_join w output_dir (base_name ++ lit ".json") in
    write_file w json_path (JsonFile res).

(** [[r for r in results if r['success']]] and its complement. *)
Fixpoint select (want : bool) (results : list record) : result (list record) :=
  match results with
  | [] => Ok []
  | r :: rest =>
      ok <- success_of r ;;
      sel <- select want rest ;;
      Ok (if Bool.eqb ok want then r :: sel else sel)
  end.

Fixpoint numbers (k : string) (rs : list record) : result (list Q) :=
  match rs with
  | [] => Ok []
  | r :: rest =>
      v <- dict_item k r ;;
      q <- as_number v ;;
      qs <- numbers k rest ;;
      Ok (q :: qs)
  end.

(** The [if successful:] block of [_save_batch_report]: the average
    confidence and the total of characters, or nothing when no record
    succeeded. *)
Definition batch_aggregates (successful : list record) : result (option (Q * Q)) :=
  match successful with
  | [] => Ok None
  | _ :: _ =>
      cs <- numbers "confidence" successful ;;
      avg_conf <- py_truediv (py_qsum cs) (inject_Z (len successful)) ;;
      ns <- numbers "char_count" successful ;;
      Ok (Some (avg_conf, py_qsum ns))
  end.

(** [s[:n].replace('\n', ' ')]. *)
Definition preview (n : nat) (s : text) : text :=
  map (fun c => if (c =? NL)%N then SP else c) (firstn n s).

Definition report_line_of (r : record) : result report_line :=
  let filename := dict_get_default "filename" (VStr (lit "N/A")) r in
  ok <- success_of r ;;
  if ok then
    c <- (v <- dict_item "confidence" r ;; as_number v) ;;
    chars <- dict_item "char_count" r ;;
    words <- dict_item "word_count" r ;;
    t <- (v <- dict_item "text" r ;; as_text v) ;;
    Ok (LineSuccess filename c chars words (preview 200 t))
  else
    Ok (LineFailed filename (dict_get_default "error" (VStr (lit "Unknown error")) r)).

Fixpoint report_lines (results : list record) : result (list report_line) :=
  match results with
  | [] => Ok []
  | r :: rest =>
      l <- report_line_of r ;;
      ls <- report_lines rest ;;
      Ok (l :: ls)
  end.

(** What [_save_batch_report] computes between opening the report file and
    closing it. *)
Definition batch_report_of (results : list record) : result batch_report :=
  successful <- select true results ;;
  failed <- select false results ;;
  agg <- batch_aggregates successful ;;
  ls <- report_lines results ;;
  Ok {| br_total := len results;
        br_successful := len successful;
        br_failed := len failed;
        br_aggregates := agg;
        br_lines := ls |}.

(** [OCREngine._save_batch_report]. *)
Definition _save_batch_report (results : list record) (output_dir : text) : result unit :=
  let report_path := path_join w output_dir (lit "batch_report.txt") in
  report <- batch_report_of results ;;
  write_file w report_path (ReportFile report).

(** The last dictionary stored in [self.ocr_results] is the object that
    [extract_text] returned: an assignment through the returned reference
    shows in the stored one. *)
Definition update_last (f : record -> record) (l : list record) : list record :=
  match rev l with
  | [] => []
  | r :: before => rev before ++ [f r]
  end.

Definition with_results (self : engine) (rs : list record) : engine :=
  {| ocr_results := rs; performance_stats := performance_stats self |}.

Definition default_config : text := lit "--oem 3 --psm 6".
Definition default_timeout : Z := 30.

(** The dictionary built by the [except] branch of [batch_process]. *)
Definition batch_error_result (image_path msg : text) : record :=
  [ ("success", VBool false);
    ("filename", VStr (basename w image_path));
    ("error", VStr msg);
    ("text", VStr []) ]%string.

(** The prints that close the [try] of the loop body. *)
Definition announce (res : record) : result unit :=
  ok <- success_of res ;;
  if ok then
    t <- (v <- dict_item "text" res ;; as_text v) ;;
    _ <- print_line w (Recognised (preview 100 t)) ;;
    c <- (v <- dict_item "confidence" res ;; as_number v) ;;
    print_line w (ConfidenceLine c)
  else
    e <- dict_item "error" res ;;
    print_line w (ErrorLine e).

(** The [except] branch of the loop body: the failed record is appended,
    then the failure is printed; nothing catches what that print raises. *)
Definition batch_handler (self : engine) (results : list record) (image_path msg : text)
  : engine * list record * option text :=
  let results := results ++ [batch_error_result image_path msg] in
  match print_line w (FailedLine msg) with
  | Raise m => (self, results, Some m)
  | Ok _ => (self, results, None)
  end.

(** One turn of the loop of [batch_process], for the input at [index] of
    [total]: the engine and the list [results] after the turn, and the
    exception that left the loop, if one did. *)
Definition batch_step (save_results : bool) (output_dir language : text) (total : Z)
  (state : engine * list record) (index : Z) (image_path : text)
  : engine * list record * option text :=
  let '(self, results) := state in
  match print_line w (Processing (index + 1) total (basename w image_path)) with
  | Raise m => (self, results, Some m)
  | Ok _ =>
      match image_open w image_path with
      | Raise msg => batch_handler self results image_path msg
      | Ok image =>
          let '(self, res) :=
            extract_text self image language default_config default_timeout in
          let tag := tag (basename w image_path) image_path in
          let res := tag res in
          let self := with_results self (update_last tag (ocr_results self)) in
          let results := results ++ [res] in
          match (_ <- (if save_results then _save_single_result res output_dir else Ok tt) ;;
                 announce res) with
          | Raise msg => batch_handler self results image_path msg
          | Ok _ => (self, results, None)
          end
      end
  end.

(** The turns of the loop from [index] on: the loop goes on to the next
    input unless an exception left the turn. *)
Fixpoint batch_turns (save_results : bool) (output_dir language : text) (total index : Z)
  (image_paths : list text) (state : engine * list record)
  : engine * list record * option text :=
  match image_paths with
  | [] => (state, None)
  | image_path :: rest =>
      match batch_step save_results output_dir language total state index image_path with
      | (self, results, None) =>
          batch_turns save_results output_dir language total (index + 1) rest (self, results)
      | stopped => stopped
      end
  end.

(** The [for] loop of [batch_process]: the engine and the list [results]
    when the loop is left, and the exception that left it, if one did. *)
Definition batch_loop (save_results : bool) (output_dir language : text)
  (self : engine) (image_paths : list text) : engine * list record * option text :=
  batch_turns save_results output_dir language (len image_paths) 0 image_paths (self, []).

(** [OCREngine.batch_process]: the engine afterwards, and the list returned
    or the exception that left the method. *)
Definition batch_process (self : engine) (image_paths : list text) (language : text)
  (save_results : bool) (output_dir : text) : engine * result (list record) :=
  match (if save_results && negb (path_exists w output_dir)
         then makedirs w output_dir else Ok tt) with
  | Raise msg => (self, Raise msg)
  | Ok _ =>
      match batch_loop save_results output_dir language self image_paths with
      | (self, _, Some msg) => (self, Raise msg)
      | (self, results, None) =>
          (self,
           _ <- (if save_results then _save_batch_report results output_dir else Ok tt) ;;
           Ok results)
      end
  end.

(** The figures of [get_performance_report], before they are laid out. *)
Record performance_report := {
  pr_total : Z;
  pr_successful : Z;
  pr_failed : Z;
  pr_success_rate : option Q;
  pr_total_chars : option Z;
  pr_avg_conf : option Q
}.

(** [OCREngine.get_performance_report]. *)
Definition get_performance_report (self : engine) : result performance_report :=
  let st := performance_stats self in
  if (successful st >? 0)%Z then
    ratio <- py_truediv (inject_Z (successful st)) (inject_Z (total_images st)) ;;
    let success_rate := Qred (ratio * 100) in
    succeeded <- select true (ocr_results self) ;;
    confidences <- numbers "confidence" succeeded ;;
    avg <- match confidences with
           | [] => Ok None
           | _ :: _ =>
               q <- py_truediv (py_qsum confidences) (inject_Z (len confidences)) ;;
               Ok (Some q)
           end ;;
    Ok {| pr_total := total_images st; pr_successful := successful st;
          pr_failed := failed st; pr_success_rate := Some success_rate;
          pr_total_chars := Some (total_chars st); pr_avg_conf := avg |}
  else
    Ok {| pr_total := total_images st; pr_successful := successful st;
          pr_failed := failed st; pr_success_rate := None;
          pr_total_chars := None; pr_avg_conf := None |}.

End Engine.

(** A history of one engine: the calls made on it since its construction. *)
Inductive call :=
| Extract (image : Image) (language config : text) (timeout : Z)
| Batch (image_paths : list text) (language : text) (save_results : bool) (output_dir : text).

Definition perform (w : World) (self : engine) (c : call) : engine :=
  match c with
  | Extract image language config timeout =>
      fst (extract_text w self image language config timeout)
  | Batch image_paths language save_results output_dir =>
      fst (batch_process w self image_paths language save_results output_dir)
  end.

Definition engine_after (w : World) (calls : list call) : engine :=
  fold_left (perform w) calls init.

(* ================================================================== *)
(** * [OCREngine]: the language list and the export *)
(* ================================================================== *)

Definition nonempty (s : text) : bool :=
  match s with [] => false | _ :: _ => true end.

(** [OCREngine.get_available_languages], given what [subprocess.run] came
    back with: the return code and the standard output, or an exception. *)
Definition get_available_languages (run : result (Z * text)) : list text :=
  match run with
  | Ok (returncode, stdout) =>
      if (returncode =? 0)%Z then
        let lines := tl (split_nl (strip stdout)) in
        map strip (filter (fun lang => nonempty (strip lang)) lines)
      else []
  | Raise _ => map fst LANGUAGE_MAP
  end.

(** [d.copy()] followed by [del d[k]] when [k] is there. *)
Definition dict_del (k : string) (d : record) : record :=
  filter (fun kv => negb (String.eqb k (fst kv))) d.

(** A part of a written line: a literal, a value as [str] shows it, a number
    shown with one decimal, or a text. *)
Inductive cell :=
| CLit (s : string)
| CVal (v : value)
| CFixed1 (q : Q)
| CText (t : text).

(** What one call writes to the export file: the dump of [json.dump], a row
    of [csv.writer], or the string of one [f.write]. *)
Inductive export_item :=
| JsonDump (data : list record)
| CsvRow (cells : list cell)
| TxtWrite (cells : list cell).

(** The file system as [export_results] uses it: [open(path, 'w')] and the
    writes to the file opened; both may raise. *)
Record Disk := {
  disk_open : text -> result unit;
  disk_write : text -> export_item -> result unit
}.

(** A sequence of writes, each argument evaluated right before its write. *)
Fixpoint write_all (put : export_item -> result unit) (items : list (result export_item))
  : result unit :=
  match items with
  | [] => Ok tt
  | i :: rest => x <- i ;; _ <- put x ;; write_all put rest
  end.

Definition csv_header : export_item :=
  CsvRow [CLit "Filename"; CLit "Success"; CLit "Language"; CLit "Confidence";
          CLit "Characters"; CLit "Words"; CLit "Text_Preview"].

(** The row of one result in the CSV export. *)
Definition csv_row (r : record) : result export_item :=
  t <- as_text (dict_get_default "text" (VStr []) r) ;;
  let preview := preview 100 t in
  c <- as_number (dict_get_default "confidence" (VInt 0) r) ;;
  Ok (CsvRow [CVal (dict_get_default "filename" (VStr (lit "N/A")) r);
              CVal (dict_get_default "success" (VBool false) r);
              CVal (dict_get_default "language" (VStr (lit "N/A")) r);
              CFixed1 c;
              CVal (dict_get_default "char_count" (VInt 0) r);
              CVal (dict_get_default "word_count" (VInt 0) r);
              CText preview]).

(** The writes for one result in the text export. *)
Definition txt_block (r : record) : list (result export_item) :=
  [ Ok (TxtWrite [CLit "============================================================";
                  CText [NL]]);
    Ok (TxtWrite [CLit "File: "; CVal (dict_get_default "filename" (VStr (lit "N/A")) r);
                  CText [NL]]);
    Ok (TxtWrite [CLit "Success: "; CVal (dict_get_default "success" (VBool false) r);
                  CText [NL]]) ]
  ++ (if truthy (dict_get_default "success" VNone r) then
        [ Ok (TxtWrite [CLit "Language: ";
                        CVal (dict_get_default "language" (VStr (lit "N/A")) r);
                        CText [NL]]);
          (c <- as_number (dict_get_default "confidence" (VInt 0) r) ;;
           Ok (TxtWrite [CLit "Confidence: "; CFixed1 c; CLit "%"; CText [NL]]));
          Ok (TxtWrite [CLit "Characters: ";
                        CVal (dict_get_default "char_count" (VInt 0) r); CText [NL]]);
          Ok (TxtWrite [CLit "Words: ";
                        CVal (dict_get_default "word_count" (VInt 0) r); CText [NL]]);
          (t <- as_text (dict_get_default "text" (VStr []) r) ;;
           Ok (TxtWrite [CText ([NL] ++ t ++ [NL])])) ]
      else
        [ Ok (TxtWrite [CLit "Error: ";
                        CVal (dict_get_default "error" (VStr (lit "Unknown")) r);
                        CText [NL]]) ])
  ++ [ Ok (TxtWrite [CText [NL]]) ].

Section ExportResults.

Variable D : Disk.

(** [OCREngine.export_results]. *)
Definition export_results (self : engine) (format output_file : text) : result text :=
  match ocr_results self with
  | [] => Ok (lit "No results to export")
  | _ :: _ =>
      if text_eqb format (lit "json") then
        let file_path := output_file ++ lit ".json" in
        _ <- disk_open D file_path ;;
        let export_data := map (dict_del "image") (ocr_results self) in
        _ <- disk_write D file_path (JsonDump export_data) ;;
        Ok file_path
      else if text_eqb format (lit "csv") then
        let file_path := output_file ++ lit ".csv" in
        _ <- disk_open D file_path ;;
        _ <- write_all (disk_write D file_path)
               (Ok csv_header :: map csv_row (ocr_results self)) ;;
        Ok file_path
      else
        let file_path := output_file ++ lit ".txt" in
        _ <- disk_open D file_path ;;
        _ <- write_all (disk_write D file_path) (flat_map txt_block (ocr_results self)) ;;
        Ok file_path
  end.

(** The call that [do_export] of the desktop front end makes once a file
    name has been chosen; nothing is exported for an empty name. *)
Definition do_export (self : engine) (format_type filename : text) : option (result text) :=
  match filename with
  | [] => None
  | _ :: _ =>
      Some (export_results self format_type
              (firstn (List.length filename - 4) filename))
  end.

End ExportResults.

(* ================================================================== *)
(** * [ImageProcessor] *)
(* ================================================================== *)

(** A formatted message: the literal parts of an f-string and the values
    substituted into it. *)
Inductive piece :=
| Str (s : string)
| Txt (t : text)
| Int (z : Z)
| Flt (q : Q)
| Size (wh : Z * Z)
| Opt (o : option text).

Definition message := list piece.

(** [self.processing_steps] and [self.debug_mode]. *)
Record processor := {
  processing_steps : list message;
  debug_mode : bool
}.

(** [ImageProcessor.__init__]. *)
Definition new_processor : processor :=
  {| processing_steps := []; debug_mode := false |}.

(** [ImageProcessor.log] (what it prints in debug mode is not kept). *)
Definition log (self : processor) (m : message) : processor :=
  {| processing_steps := processing_steps self ++ [m];
     debug_mode := debug_mode self |}.

Inductive filter_kind :=
| MedianFilter (size : Z)
| GaussianBlur (radius : Z)
| MinFilter (size : Z)
| MaxFilter (size : Z).

Inductive enhancer := Brightness | Contrast | Sharpness.

Inductive display_outcome :=
| Shown
| NoMatplotlib
| DisplayFailed (msg : text).

(** The imaging library and the few system calls [ImageProcessor] makes;
    any of the library calls may raise. *)
Record Pillow := {
  pil_exists : text -> bool;
  pil_open : text -> result Image;
  pil_basename : text -> text;
  pil_convert : Image -> text -> result Image;
  pil_enhance : enhancer -> Image -> Q -> result Image;
  pil_point : Image -> (Z -> Z) -> text -> result Image;
  pil_filter : Image -> filter_kind -> result Image;
  pil_autocontrast : Image -> Z -> result Image;
  pil_resize : Image -> Z * Z -> result Image;
  pil_save : Image -> text -> result unit;
  display : list (string * Image) -> display_outcome
}.

(** [int(x)] on a float: truncation towards zero. *)
Definition py_int (x : Q) : Z := Z.quot (Qnum x) (Zpos (Qden x)).

Definition qltb (a b : Q) : bool := negb (Qle_bool b a).

(** [min(a, b)]: the first argument unless the second is smaller. *)
Definition py_min (a b : Q) : Q := if qltb b a then b else a.

Definition py_max (a b : Z) : Z := if (a <? b)%Z then b else a.

Section ImageProcessor.

Variable P : Pillow.

(** Rounding to the nearest float: the true division of two integers and
    the product of an integer by a float are the exact results, rounded. *)
Variable fl : Q -> Q.

Definition fdiv (a b : Z) : result Q :=
  if (b =? 0)%Z then Raise (lit "division by zero")
  else Ok (fl (inject_Z a / inject_Z b)).

Definition fmul (a : Z) (x : Q) : Q := fl (inject_Z a * x).

(** [ImageProcessor.load_image]. *)
Definition load_image (self : processor) (image_path : text)
  : result (Image * processor) :=
  if negb (pil_exists P image_path) then
    Raise (lit "Image not found: " ++ image_path)
  else
    match pil_open P image_path with
    | Ok img =>
        let self := log self [Str "Loaded image: "; Txt (pil_basename P image_path)] in
        let self := log self [Str "  Size: "; Size (img_size img); Str ", Mode: ";
                              Txt (img_mode img); Str ", Format: "; Opt (img_format img)] in
        Ok (img, self)
    | Raise msg => Raise (lit "Failed to load image: " ++ msg)
    end.

(** [ImageProcessor.convert_to_grayscale]. *)
Definition convert_to_grayscale (self : processor) (image : Image)
  : result (Image * processor) :=
  if negb (text_eqb (img_mode image) (lit "L")) then
    gray <- pil_convert P image (lit "L") ;;
    Ok (gray, log self [Str "Converted to grayscale"])
  else Ok (image, self).

(** [ImageProcessor.adjust_brightness_contrast]. *)
Definition adjust_brightness_contrast (self : processor) (image : Image)
  (brightness contrast : Q) : result (Image * processor) :=
  s1 <- (if negb (Qeq_bool brightness 1) then
           enhanced <- pil_enhance P Brightness image brightness ;;
           Ok (enhanced, log self [Str "Adjusted brightness: "; Flt brightness])
         else Ok (image, self)) ;;
  let '(image, self) := s1 in
  if negb (Qeq_bool contrast 1) then
    enhanced <- pil_enhance P Contrast image contrast ;;
    Ok (enhanced, log self [Str "Adjusted contrast: "; Flt contrast])
  else Ok (image, self).

(** [ImageProcessor.apply_threshold]. *)
Definition apply_threshold (self : processor) (image : Image) (threshold : Z)
  : result (Image * processor) :=
  binary <- pil_point P image (fun x => if (x <? threshold)%Z then 0 else 255)%Z (lit "1") ;;
  binary <- pil_convert P binary (lit "L") ;;
  Ok (binary, log self [Str "Applied threshold: "; Int threshold]).

(** [ImageProcessor.remove_noise]. *)
Definition remove_noise (self : processor) (image : Image) (method : text) (size : Z)
  : result (Image * processor) :=
  if text_eqb method (lit "median") then
    denoised <- pil_filter P image (MedianFilter size) ;;
    Ok (denoised, log self [Str "Applied median filter (size="; Int size; Str ")"])
  else if text_eqb method (lit "gaussian") then
    denoised <- pil_filter P image (GaussianBlur (size / 2)) ;;
    Ok (denoised, log self [Str "Applied gaussian blur (radius="; Int (size / 2); Str ")"])
  else if text_eqb method (lit "min") then
    denoised <- pil_filter P image (MinFilter size) ;;
    Ok (denoised, log self [Str "Applied min filter (size="; Int size; Str ")"])
  else if text_eqb method (lit "max") then
    denoised <- pil_filter P image (MaxFilter size) ;;
    Ok (denoised, log self [Str "Applied max filter (size="; Int size; Str ")"])
  else Ok (image, self).

(** [ImageProcessor.sharpen_image]. *)
Definition sharpen_image (self : processor) (image : Image) (strength : Q)
  : result (Image * processor) :=
  sharpened <- pil_enhance P Sharpness image strength ;;
  Ok (sharpened, log self [Str "Sharpened image (strength="; Flt strength; Str ")"]).

(** [ImageProcessor.deskew_image]: the bare [except] swallows whatever the
    library raises. *)
Definition deskew_image (self : processor) (image : Image) : Image * processor :=
  match pil_autocontrast P image 2 with
  | Ok deskewed => (deskewed, log self [Str "Applied auto-contrast for deskewing"])
  | Raise _ => (image, log self [Str "Deskewing not applied"])
  end.

(** [ImageProcessor.resize_image]. *)
Definition resize_image (self : processor) (image : Image)
  (scale_factor : option Q) (max_size : option (Z * Z)) : result (Image * processor) :=
  let original_size := img_size image in
  let by_scale :=
    match scale_factor with
    | Some f => negb (Qeq_bool f 0) && qltb 0 f && negb (Qeq_bool f 1)
    | None => false
    end in
  if by_scale then
    let f := match scale_factor with Some f => f | None => 0 end in
    let new_size := (py_int (fmul (fst original_size) f),
                     py_int (fmul (snd original_size) f)) in
    resized <- pil_resize P image new_size ;;
    Ok (resized, log self [Str "Resized: "; Size original_size; Str " -> ";
                           Size new_size; Str " (scale="; Flt f; Str ")"])
  else
    match max_size with
    | Some max_size =>
        r0 <- fdiv (fst max_size) (fst original_size) ;;
        r1 <- fdiv (snd max_size) (snd original_size) ;;
        let ratio := py_min r0 r1 in
        if qltb ratio 1 then
          let new_size := (py_int (fmul (fst original_size) ratio),
                           py_int (fmul (snd original_size) ratio)) in
          resized <- pil_resize P image new_size ;;
          Ok (resized, log self [Str "Resized to max "; Size max_size; Str ": ";
                                 Size original_size; Str " -> "; Size new_size])
        else Ok (image, self)
    | None => Ok (image, self)
    end.

(** Step 3 of the pipeline: resize if too large. *)
Definition resize_if_too_large (self : processor) (gray : Image)
  : result (Image * processor) :=
  if (py_max (fst (img_size gray)) (snd (img_size gray)) >? 2000)%Z then
    resize_image self gray None (Some (1500, 1500)%Z)
  else Ok (gray, self).

Definition rule : message := [Str "=================================================="].

(** [ImageProcessor._display_processing_steps]. *)
Definition _display_processing_steps (self : processor) (images : list (string * Image))
  : processor :=
  match display P images with
  | Shown => self
  | NoMatplotlib => log self [Str "Matplotlib not available for visualization"]
  | DisplayFailed msg => log self [Str "Failed to display steps: "; Txt msg]
  end.

(** [ImageProcessor.full_preprocessing_pipeline]. *)
Definition full_preprocessing_pipeline (self : processor) (image_path : text)
  (output_path : option text) (show_steps : bool) : result (Image * processor) :=
  let self := {| processing_steps := []; debug_mode := debug_mode self |} in
  let self := log self rule in
  let self := log self [Str "STARTING OCR PREPROCESSING PIPELINE"] in
  let self := log self rule in
  s <- load_image self image_path ;;
  let '(original, self) := s in
  s <- convert_to_grayscale self original ;;
  let '(gray, self) := s in
  s <- resize_if_too_large self gray ;;
  let '(resized, self) := s in
  let intermediate_images :=
    [("Original", original); ("Grayscale", gray)]%string
    ++ (if (py_max (fst (img_size gray)) (snd (img_size gray)) >? 2000)%Z
        then [("Resized", resized)]%string else []) in
  s <- adjust_brightness_contrast self resized (11 # 10) (18 # 10) ;;
  let '(enhanced, self) := s in
  s <- remove_noise self enhanced (lit "median") 3 ;;
  let '(denoised, self) := s in
  s <- sharpen_image self denoised (13 # 10) ;;
  let '(sharpened, self) := s in
  s <- apply_threshold self sharpened 160 ;;
  let '(thresholded, self) := s in
  let '(final, self) := deskew_image self thresholded in
  let intermediate_images :=
    intermediate_images
    ++ [("Enhanced", enhanced); ("Denoised", denoised); ("Sharpened", sharpened);
        ("Thresholded", thresholded); ("Final", final)]%string in
  self <- match output_path with
          | Some ((_ :: _) as path) =>
              _ <- pil_save P final path ;;
              Ok (log self [Str "Saved processed image to: "; Txt path])
          | _ => Ok self
          end ;;
  let self := if show_steps then _display_processing_steps self intermediate_images
              else self in
  let self := log self rule in
  let self := log self [Str "PREPROCESSING COMPLETE (";
                        Int (len (processing_steps self)); Str " steps)"] in
  let self := log self rule in
  Ok (final, self).

End ImageProcessor.

(* ================================================================== *)
(** * Part II. Definitions for the statements *)
(* ================================================================== *)

(* ------------------------------------------------------------------ *)
(** ** The confidence as the specification words it *)
(* ------------------------------------------------------------------ *)

(** Sum and number of the tokens that [scored] accepts, and their mean, 0
    when there is none. *)
Fixpoint scored_sum (scored : Z -> bool) (l : list Z) : Z :=
  match l with
  | [] => 0
  | c :: r => if scored c then c + scored_sum scored r else scored_sum scored r
  end%Z.

Fixpoint scored_count (scored : Z -> bool) (l : list Z) : Z :=
  match l with
  | [] => 0
  | c :: r => if scored c then 1 + scored_count scored r else scored_count scored r
  end%Z.

Definition mean_of_scored (scored : Z -> bool) (l : list Z) : Q :=
  if (scored_count scored l =? 0)%Z then 0
  else inject_Z (scored_sum scored l) / inject_Z (scored_count scored l).

(** A score is valid when it is not negative (the claim), or when it is
    strictly positive (the source). *)
Definition non_negative (c : Z) : bool := (0 <=? c)%Z.
Definition positive_score (c : Z) : bool := (0 <? c)%Z.

(* ------------------------------------------------------------------ *)
(** ** Normal forms of the text cleaner *)
(* ------------------------------------------------------------------ *)

Definition no_nl (s : text) : Prop := Forall (fun c => c <> NL) s.

(** A text that [sub_spaces] leaves alone: the normal form of the second
    step. *)
Definition spaced (b : bool) (s : text) : Prop := sub_spaces b s = s.

(* ------------------------------------------------------------------ *)
(** ** Records that the reports can read *)
(* ------------------------------------------------------------------ *)

Definition is_success (r : record) : bool :=
  match dict_get "success" r with
  | Some v => truthy v
  | None => false
  end.

(** A record whose [success] is a boolean and which, when it succeeded,
    carries a numeric confidence, a character count, a word count and a
    text. *)
Definition reportable (r : record) : bool :=
  match dict_get "success" r with
  | Some (VBool true) =>
      match dict_get "confidence" r, dict_get "char_count" r,
            dict_get "word_count" r, dict_get "text" r with
      | Some (VInt _ | VFloat _), Some (VInt _), Some _, Some (VStr _) => true
      | _, _, _, _ => false
      end
  | Some (VBool false) => true
  | _ => false
  end.

(** The number stored under [k], 0 when there is none. *)
Definition number_of (k : string) (r : record) : Q :=
  match dict_get k r with
  | Some (VInt z) => inject_Z z
  | Some (VFloat q) => q
  | _ => 0
  end.

(** The records and the counters of an engine agree. *)
Definition counted (e : engine) : Prop :=
  let st := performance_stats e in
  (total_images st = successful st + failed st
   /\ total_images st = len (ocr_results e)
   /\ 0 <= successful st /\ 0 <= failed st)%Z.

Definition sound (e : engine) : Prop :=
  counted e /\ Forall (fun r => reportable r = true) (ocr_results e).

(* ------------------------------------------------------------------ *)
(** ** The image pipeline *)
(* ------------------------------------------------------------------ *)

(** The entries that [adjust_brightness_contrast] adds for its factors. *)
Definition enhancement_entries (brightness contrast : Q) : list message :=
  (if Qeq_bool brightness 1 then [] else [[Str "Adjusted brightness: "; Flt brightness]])
  ++ (if Qeq_bool contrast 1 then [] else [[Str "Adjusted contrast: "; Flt contrast]]).

Definition supported_method (method : text) : bool :=
  existsb (text_eqb method) [lit "median"; lit "gaussian"; lit "min"; lit "max"].

(** Half the gap between 1 and the next double: 2 to the power -53. *)
Definition unit_roundoff : Q := 1 # 9007199254740992.

(** The standard model of rounding to nearest, away from overflow and
    underflow: the rounded value is off by at most the unit roundoff,
    relatively. *)
Definition rounds_to_nearest (fl : Q -> Q) : Prop :=
  forall x, 0 <= x -> x * (1 - unit_roundoff) <= fl x /\ fl x <= x * (1 + unit_roundoff).

(** What the sources expect of [Image.resize]: asked for a size with
    positive sides, it returns an image of that size. *)
Definition resize_contract (P : Pillow) : Prop :=
  forall im s, (0 < fst s)%Z -> (0 < snd s)%Z ->
    exists out, pil_resize P im s = Ok out /\ img_size out = s.

(** The entry that [resize_image] logs when it fits an image into
    [max_size]. *)
Definition resized_entry (max_size original_size new_size : Z * Z) : message :=
  [Str "Resized to max "; Size max_size; Str ": "; Size original_size; Str " -> ";
   Size new_size].



(* ------------------------------------------------------------------ *)
(** ** A concrete world for the engine *)
(* ------------------------------------------------------------------ *)

(** A table that classes no non-ASCII character as alphanumeric; on ASCII
    input every table gives the same result. *)
Definition ascii_only : N -> bool := fun _ => false.

(** The part of [s] after the last [sep], or [s] when there is none. *)
Fixpoint after_last (sep : N) (s : text) : text :=
  match s with
  | [] => []
  | c :: r =>
      if existsb (N.eqb sep) r then after_last sep r
      else if (c =? sep)%N then r else s
  end.

(** The part of [s] before the last [sep], or [s] when there is none. *)
Fixpoint before_last (sep : N) (s : text) : text :=
  match s with
  | [] => []
  | c :: r =>
      if existsb (N.eqb sep) r then c :: before_last sep r
      else if (c =? sep)%N then [] else s
  end.

Definition ascii_lower (s : text) : text :=
  map (fun c => if ((65 <=? c) && (c <=? 90))%N then (c + 32)%N else c) s.

Definition page : Image :=
  {| img_size := (300, 100)%Z; img_mode := lit "RGB"; img_format := Some (lit "PNG");
     img_pixels := [] |}.

(** Three rows: a structural row without score, a word read with
    confidence 0 and a word read with confidence 100. *)
Definition page_data : tess_data :=
  {| td_level := [4; 5; 5]%Z;
     td_conf := [-1; 0; 100]%Z;
     td_text := [[]; lit "line"; lit "one"];
     td_left := [10; 10; 60]%Z;
     td_top := [10; 10; 10]%Z;
     td_width := [90; 40; 40]%Z;
     td_height := [20; 20; 20]%Z;
     td_line_num := [1; 1; 1]%Z;
     td_block_num := [1; 1; 1]%Z |}.

(** A desk with a working engine, one unreadable file, one output file
    that cannot be written and a console that takes every line. *)
Definition desk : World :=
  {| image_to_string := fun _ _ _ _ => Ok (lit "line one" ++ [NL]);
     image_to_data := fun _ _ _ => Ok page_data;
     convert := fun im m => Ok {| img_size := img_size im; img_mode := m;
                                  img_format := None; img_pixels := img_pixels im |};
     str_lower := ascii_lower;
     image_open := fun p =>
       if text_eqb p (lit "torn.png")
       then Raise (lit "cannot identify image file") else Ok page;
     path_exists := fun _ => true;
     makedirs := fun _ => Ok tt;
     basename := after_last 47;
     splitext := before_last 46;
     path_join := fun d f => d ++ lit "/" ++ f;
     write_file := fun p _ =>
       if text_eqb p (lit "out/locked.txt")
       then Raise (lit "Permission denied") else Ok tt;
     unicode_alnum := ascii_only;
     print_line := fun _ => Ok tt |}.

(* ------------------------------------------------------------------ *)
(** ** A concrete imaging library *)
(* ------------------------------------------------------------------ *)

(** A scanned sheet, 2500 by 1800, already in grayscale. *)
Definition sheet : Image :=
  {| img_size := (2500, 1800)%Z; img_mode := lit "L"; img_format := Some (lit "PNG");
     img_pixels := [] |}.

Definition with_mode (im : Image) (m : text) : Image :=
  {| img_size := img_size im; img_mode := m; img_format := None;
     img_pixels := img_pixels im |}.

Definition with_size (im : Image) (s : Z * Z) : Image :=
  {| img_size := s; img_mode := img_mode im; img_format := None;
     img_pixels := img_pixels im |}.

(** A studio where every operation succeeds, except a rank filter of even
    size. *)
Definition studio : Pillow :=
  {| pil_exists := fun _ => true;
     pil_open := fun _ => Ok sheet;
     pil_basename := after_last 47;
     pil_convert := fun im m => Ok (with_mode im m);
     pil_enhance := fun _ im _ => Ok im;
     pil_point := fun im f m =>
       Ok {| img_size := img_size im; img_mode := m; img_format := None;
             img_pixels := map (fun x => Z.to_N (f (Z.of_N x))) (img_pixels im) |};
     pil_filter := fun im k =>
       match k with
       | GaussianBlur _ => Ok im
       | MedianFilter s | MinFilter s | MaxFilter s =>
           if Z.even s then Raise (lit "bad filter size") else Ok im
       end;
     pil_autocontrast := fun im _ => Ok im;
     pil_resize := fun im s => Ok (with_size im s);
     pil_save := fun _ _ => Ok tt;
     display := fun _ => Shown |}.

(** Floats that round nothing. *)
Definition exact : Q -> Q := fun x => x.

(** A processor that has already logged one step. *)
Definition busy_processor : processor :=
  log new_processor [Str "Converted to grayscale"].

(** The studio with files that cannot be written. *)
Definition read_only_studio : Pillow :=
  {| pil_exists := pil_exists studio; pil_open := pil_open studio;
     pil_basename := pil_basename studio; pil_convert := pil_convert studio;
     pil_enhance := pil_enhance studio; pil_point := pil_point studio;
     pil_filter := pil_filter studio; pil_autocontrast := pil_autocontrast studio;
     pil_resize := pil_resize studio;
     pil_save := fun _ _ => Raise (lit "Permission denied");
     display := display studio |}.

(** A scanned strip, 3000 by 1, already in grayscale. *)
Definition strip_scan : Image :=
  {| img_size := (3000, 1)%Z; img_mode := lit "L"; img_format := Some (lit "PNG");
     img_pixels := [] |}.

(** The studio with the strip on file and a resize that, as the library's
    does, refuses a size with a side that is not positive. *)
Definition narrow_studio : Pillow :=
  {| pil_exists := pil_exists studio; pil_open := fun _ => Ok strip_scan;
     pil_basename := pil_basename studio; pil_convert := pil_convert studio;
     pil_enhance := pil_enhance studio; pil_point := pil_point studio;
     pil_filter := pil_filter studio; pil_autocontrast := pil_autocontrast studio;
     pil_resize := fun im s =>
       if ((0 <? fst s) && (0 <? snd s))%Z then Ok (with_size im s)
       else Raise (lit "height and width must be > 0");
     pil_save := pil_save studio;
     display := display studio |}.

(* ------------------------------------------------------------------ *)
(** ** Shapes of texts, tables, logs and exports *)
(* ------------------------------------------------------------------ *)

(** No two whitespace characters in a row. *)
Fixpoint single_spaced (s : text) : bool :=
  match s with
  | [] => true
  | c :: r =>
      match r with
      | [] => true
      | d :: _ => negb (is_space c && is_space d) && single_spaced r
      end
  end.

(** [s.count(' ')]. *)
Fixpoint count_spaces (s : text) : Z :=
  match s with
  | [] => 0
  | c :: r => if (c =? SP)%N then 1 + count_spaces r else count_spaces r
  end%Z.

(** A text of white space only. *)
Definition blank (s : text) : Prop := Forall (fun c => is_space c = true) s.

(** Every column of the table has one entry per row. *)
Definition rectangular (d : tess_data) : Prop :=
  let n := List.length (td_level d) in
  List.length (td_conf d) = n /\ List.length (td_text d) = n
  /\ List.length (td_left d) = n /\ List.length (td_top d) = n
  /\ List.length (td_width d) = n /\ List.length (td_height d) = n
  /\ List.length (td_line_num d) = n /\ List.length (td_block_num d) = n.

(** Row [i] counts as a word: a positive score and a text that is not
    blank. *)
Definition row_is_word (d : tess_data) (i : nat) : bool :=
  (0 <? nth i (td_conf d) 0)%Z
  && match strip (nth i (td_text d) []) with [] => false | _ :: _ => true end.

(** The box of row [i]. *)
Definition row_box (d : tess_data) (i : nat) : word_box :=
  {| wb_text := nth i (td_text d) [];
     wb_confidence := nth i (td_conf d) 0%Z;
     wb_bbox := (nth i (td_left d) 0, nth i (td_top d) 0,
                 nth i (td_left d) 0 + nth i (td_width d) 0,
                 nth i (td_top d) 0 + nth i (td_height d) 0)%Z;
     wb_line_num := nth i (td_line_num d) 0%Z;
     wb_block_num := nth i (td_block_num d) 0%Z |}.

(** [str] of the error that indexing past the end of a list raises. *)
Definition index_error : text := lit "list index out of range".

(** The code that [extract_text] hands to the engine for [language]. *)
Definition resolve_language (w : World) (language : text) : text :=
  map_get LANGUAGE_MAP (str_lower w language) language.

(** [r['char_count']] as an integer, 0 when there is none. *)
Definition char_count_of (r : record) : Z :=
  match dict_get "char_count" r with
  | Some (VInt n) => n
  | _ => 0%Z
  end.

(** The counters of an engine tell what its stored records hold. *)
Definition tallied (e : engine) : Prop :=
  let st := performance_stats e in
  successful st = len (filter is_success (ocr_results e))
  /\ failed st = len (filter (fun r => negb (is_success r)) (ocr_results e))
  /\ total_chars st = py_sum (map char_count_of (filter is_success (ocr_results e))).

(** The record came back from [extract_text] through [batch_process]: it
    carries a [filepath]. *)
Definition has_filepath (r : record) : bool :=
  match dict_get "filepath" r with
  | Some _ => true
  | None => false
  end.

Definition opens (w : World) (image_path : text) : bool :=
  match image_open w image_path with
  | Ok _ => true
  | Raise _ => false
  end.

(** The extension that [export_results] gives the file for a format. *)
Definition export_extension (format : text) : text :=
  if text_eqb format (lit "json") then lit "json"
  else if text_eqb format (lit "csv") then lit "csv"
  else lit "txt".

(** A record that every export format can lay out: a text that is a string
    and a confidence that is a number. *)
Definition exportable (r : record) : bool :=
  match dict_get "text" r, dict_get "confidence" r with
  | Some (VStr _), Some (VInt _ | VFloat _) => true
  | _, _ => false
  end.

(** A disk on which every file opens and every write succeeds. *)
Definition accepting (D : Disk) : Prop :=
  (forall path, disk_open D path = Ok tt)
  /\ (forall path i, disk_write D path i = Ok tt).

(** A disk that takes every file. *)
Definition shelf : Disk :=
  {| disk_open := fun _ => Ok tt; disk_write := fun _ _ => Ok tt |}.

(** The log of [self'] is the log of [self] with between [lo] and [hi]
    entries appended, and the debug switch is untouched. *)
Definition grows (lo hi : nat) (self self' : processor) : Prop :=
  debug_mode self' = debug_mode self
  /\ exists added,
       processing_steps self' = processing_steps self ++ added
       /\ (lo <= List.length added <= hi)%nat.

(** Whenever [step] returns, it has only appended to the log. *)
Definition step_grows (lo hi : nat) (step : processor -> result (Image * processor)) : Prop :=
  forall self out self', step self = Ok (out, self') -> grows lo hi self self'.

(** What the sources expect of [Image.convert]: the image returned has the
    mode asked for. *)
Definition convert_contract (P : Pillow) : Prop :=
  forall im m out, pil_convert P im m = Ok out -> img_mode out = m.

(** The three entries that open the log of a pipeline run. *)
Definition banner : list message :=
  [rule; [Str "STARTING OCR PREPROCESSING PIPELINE"]; rule].

(** The three entries that close it, [n] being the count it reports. *)
Definition closing (n : Z) : list message :=
  [rule; [Str "PREPROCESSING COMPLETE ("; Int n; Str " steps)"]; rule].

(** A studio whose auto-contrast fails. *)
Definition dim_studio : Pillow :=
  {| pil_exists := pil_exists studio; pil_open := pil_open studio;
     pil_basename := pil_basename studio; pil_convert := pil_convert studio;
     pil_enhance := pil_enhance studio; pil_point := pil_point studio;
     pil_filter := pil_filter studio;
     pil_autocontrast := fun _ _ => Raise (lit "image has wrong mode");
     pil_resize := pil_resize studio; pil_save := pil_save studio;
     display := display studio |}.

(** Sides below 2 to the power 50. *)
Definition side_limit : Z := 1125899906842624.

(** A table whose confidence column lacks its last row. *)
Definition ragged_data : tess_data :=
  {| td_level := td_level page_data;
     td_conf := [-1; 0]%Z;
     td_text := td_text page_data;
     td_left := td_left page_data;
     td_top := td_top page_data;
     td_width := td_width page_data;
     td_height := td_height page_data;
     td_line_num := td_line_num page_data;
     td_block_num := td_block_num page_data |}.

(** The desk with an engine that returns the ragged table. *)
Definition smudged_desk : World :=
  {| image_to_string := image_to_string desk;
     image_to_data := fun _ _ _ => Ok ragged_data;
     convert := convert desk; str_lower := str_lower desk;
     image_open := image_open desk; path_exists := path_exists desk;
     makedirs := makedirs desk; basename := basename desk;
     splitext := splitext desk; path_join := path_join desk;
     write_file := write_file desk; unicode_alnum := unicode_alnum desk;
     print_line := print_line desk |}.

(** The desk with an engine that is not installed. *)
Definition idle_desk : World :=
  {| image_to_string := fun _ _ _ _ => Raise (lit "tesseract is not installed");
     image_to_data := image_to_data desk;
     convert := convert desk; str_lower := str_lower desk;
     image_open := image_open desk; path_exists := path_exists desk;
     makedirs := makedirs desk; basename := basename desk;
     splitext := splitext desk; path_join := path_join desk;
     write_file := write_file desk; unicode_alnum := unicode_alnum desk;
     print_line := print_line desk |}.

(** The desk with a console that cannot encode the marks of the result
    lines: the progress line and the confidence line get through, the
    others raise. *)
Definition ascii_console_desk : World :=
  {| image_to_string := image_to_string desk;
     image_to_data := image_to_data desk;
     convert := convert desk; str_lower := str_lower desk;
     image_open := image_open desk; path_exists := path_exists desk;
     makedirs := makedirs desk; basename := basename desk;
     splitext := splitext desk; path_join := path_join desk;
     write_file := write_file desk; unicode_alnum := unicode_alnum desk;
     print_line := fun n =>
       match n with
       | Processing _ _ _ | ConfidenceLine _ => Ok tt
       | _ => Raise (lit "'charmap' codec can't encode character")
       end |}.

(** The desk with a file system that takes every write. *)
Definition open_desk : World :=
  {| image_to_string := image_to_string desk;
     image_to_data := image_to_data desk;
     convert := convert desk; str_lower := str_lower desk;
     image_open := image_open desk; path_exists := path_exists desk;
     makedirs := makedirs desk; basename := basename desk;
     splitext := splitext desk; path_join := path_join desk;
     write_file := fun _ _ => Ok tt; unicode_alnum := unicode_alnum desk;
     print_line := print_line desk |}.

(* ================================================================== *)
(** * Part III. Facts *)
(* ================================================================== *)

(* ------------------------------------------------------------------ *)
(** ** Facts about stripping *)
(* ------------------------------------------------------------------ *)

Lemma lstrip_snoc :
  forall l c,
    lstrip (l ++ [c])
    = match lstrip l with
      | [] => if is_space c then [] else [c]
      | x :: l' => (x :: l') ++ [c]
      end.
Proof.
  induction l as [|d l IH]; intros c; [reflexivity|].
  cbn [app lstrip]. destruct (is_space d); [apply IH|reflexivity].
Qed.

(** [rstrip] is [lstrip] seen from the other end. *)
Lemma rstrip_rev_lstrip : forall s, rstrip s = rev (lstrip (rev s)).
Proof.
  induction s as [|c r IH]; [reflexivity|].
  cbn [rstrip rev]. rewrite lstrip_snoc, IH.
  destruct (lstrip (rev r)) as [|x l] eqn:E; cbn [rev].
  - now destruct (is_space c).
  - change ((x :: l) ++ [c]) with (x :: (l ++ [c])). cbn [rev].
    rewrite rev_app_distr. cbn [rev app].
    destruct (rev l ++ [x]) eqn:E'; [|reflexivity].
    now destruct (rev l).
Qed.

Lemma lstrip_idem : forall s, lstrip (lstrip s) = lstrip s.
Proof.
  induction s as [|c r IH]; simpl; [reflexivity|].
  destruct (is_space c) eqn:E; [exact IH|].
  simpl. now rewrite E.
Qed.

Lemma rstrip_nil_inv : forall s, rstrip s = [] -> Forall (fun c => is_space c = true) s.
Proof.
  induction s as [|c r IH]; simpl; intros H; [constructor|].
  destruct (rstrip r) eqn:Er.
  - destruct (is_space c) eqn:E; [|discriminate]. constructor; auto.
  - discriminate.
Qed.

Lemma rstrip_idem : forall s, rstrip (rstrip s) = rstrip s.
Proof.
  induction s as [|c r IH]; simpl; [reflexivity|].
  destruct (rstrip r) as [|d r'] eqn:Er.
  - destruct (is_space c) eqn:E; simpl; [reflexivity|now rewrite E].
  - change (rstrip (c :: d :: r')) with
      (match rstrip (d :: r') with
       | [] => if is_space c then [] else [c]
       | x :: r'' => c :: x :: r''
       end).
    now rewrite IH.
Qed.

Lemma lstrip_rstrip : forall s, lstrip (rstrip s) = rstrip (lstrip s).
Proof.
  induction s as [|c r IH]; [reflexivity|].
  cbn [lstrip]. destruct (is_space c) eqn:E.
  - cbn [rstrip]. destruct (rstrip r) eqn:Er.
    + rewrite E. rewrite <- IH. reflexivity.
    + cbn [lstrip]. rewrite E. rewrite <- IH. reflexivity.
  - cbn [rstrip]. destruct (rstrip r) eqn:Er;
      rewrite ?E; cbn [lstrip]; rewrite ?E; reflexivity.
Qed.

Lemma strip_idem : forall s, strip (strip s) = strip s.
Proof.
  intros s. unfold strip.
  now rewrite lstrip_rstrip, lstrip_idem, rstrip_idem.
Qed.

Lemma lstrip_Forall (P : N -> Prop) : forall s, Forall P s -> Forall P (lstrip s).
Proof.
  induction 1 as [|c r Hc Hr IH]; simpl; [constructor|].
  destruct (is_space c); [exact IH|now constructor].
Qed.

Lemma rstrip_Forall (P : N -> Prop) : forall s, Forall P s -> Forall P (rstrip s).
Proof.
  induction 1 as [|c r Hc Hr IH]; simpl; [constructor|].
  destruct (rstrip r).
  - destruct (is_space c); repeat constructor; assumption.
  - now constructor.
Qed.

Lemma strip_Forall (P : N -> Prop) : forall s, Forall P s -> Forall P (strip s).
Proof. intros s H. unfold strip. now apply rstrip_Forall, lstrip_Forall. Qed.

Lemma split_nl_no_nl : forall s, no_nl s -> split_nl s = [s].
Proof.
  induction 1 as [|c r Hc Hr IH]; simpl; [reflexivity|].
  destruct (N.eqb_spec c NL) as [->|_]; [now elim Hc|].
  now rewrite IH.
Qed.

(* ------------------------------------------------------------------ *)
(** ** Facts about the steps of [_clean_text] *)
(* ------------------------------------------------------------------ *)

(** The three substitutions and the split on a text with blank lines, tabs
    and a symbol: what [re.sub] and [str.split] return on it. *)
Example sub_spaces_example :
  sub_spaces false (lit "a" ++ [9; 32; 10]%N ++ lit "b  c" ++ [10; 10]%N)
  = lit "a b c ".
Proof. reflexivity. Qed.

Example sub_blank_lines_example :
  sub_blank_lines 0 (lit "a" ++ [10; 32; 10; 9; 10; 32]%N ++ lit "b" ++ [10]%N
                       ++ lit "c" ++ [10; 10]%N)
  = lit "a" ++ [10; 10; 32]%N ++ lit "b" ++ [10]%N ++ lit "c" ++ [10; 10]%N.
Proof. reflexivity. Qed.

Example split_join_example :
  split_nl ([10]%N ++ lit "a" ++ [10; 10]%N ++ lit "b") = [[]; lit "a"; []; lit "b"]
  /\ join_nl [[]; lit "a"; []; lit "b"] = [10]%N ++ lit "a" ++ [10; 10]%N ++ lit "b".
Proof. split; reflexivity. Qed.

Example clean_text_example :
  _clean_text ascii_only (lit "  Total: 42#  items_ok  " ++ [10; 10; 10]%N ++ lit "<end>")
  = lit "Total: 42 items_ok end".
Proof. reflexivity. Qed.

Section CleanTextFacts.

Variable alnum : N -> bool.

Lemma sub_blank_lines_no_nl : forall s, no_nl s -> sub_blank_lines 0 s = s.
Proof.
  induction 1 as [|c r Hc Hr IH]; simpl; [reflexivity|].
  destruct (N.eqb_spec c NL) as [->|_]; [now elim Hc|].
  now rewrite IH.
Qed.

(** After [sub_spaces] the only whitespace left is the plain space. *)
Lemma sub_spaces_only_sp :
  forall s b, Forall (fun c => is_space c = true -> c = SP) (sub_spaces b s).
Proof.
  induction s as [|c r IH]; intros b; simpl; [constructor|].
  destruct (is_space c) eqn:E.
  - destruct b; [apply IH|]. constructor; [reflexivity|apply IH].
  - constructor; [congruence|apply IH].
Qed.

Lemma sub_spaces_no_nl : forall s b, no_nl (sub_spaces b s).
Proof.
  intros s b. unfold no_nl.
  eapply Forall_impl; [|apply sub_spaces_only_sp].
  intros c H ->. specialize (H eq_refl). discriminate.
Qed.

Lemma sub_spaces_length : forall s b, (List.length (sub_spaces b s) <= List.length s)%nat.
Proof.
  induction s as [|c r IH]; intros b; simpl; [lia|].
  pose proof (IH true); pose proof (IH false).
  destruct (is_space c); [destruct b|]; simpl; lia.
Qed.

Lemma sub_spaces_spaced : forall s b, spaced b (sub_spaces b s).
Proof.
  unfold spaced. induction s as [|c r IH]; intros b; simpl; [reflexivity|].
  destruct (is_space c) eqn:E.
  - destruct b; [apply IH|]. simpl. now rewrite IH.
  - simpl. now rewrite E, IH.
Qed.

Lemma spaced_cons_inv :
  forall b c r, spaced b (c :: r) ->
    (is_space c = true /\ b = false /\ c = SP /\ spaced true r)
    \/ (is_space c = false /\ spaced false r).
Proof.
  unfold spaced. intros b c r H. simpl in H.
  destruct (is_space c) eqn:E.
  - left. destruct b.
    + pose proof (sub_spaces_length r true) as L.
      rewrite H in L. simpl in L. lia.
    + injection H as -> H. auto.
  - right. injection H as H. auto.
Qed.

Lemma spaced_true_false : forall s, spaced true s -> spaced false s.
Proof.
  intros [|c r] H; [reflexivity|].
  destruct (spaced_cons_inv _ _ _ H) as [(_ & Hb & _)|(E & Hr)]; [discriminate|].
  unfold spaced in *. simpl. now rewrite E, Hr.
Qed.

Lemma spaced_true_lstrip : forall s, spaced true s -> lstrip s = s.
Proof.
  intros [|c r] H; [reflexivity|].
  destruct (spaced_cons_inv _ _ _ H) as [(_ & Hb & _)|(E & Hr)]; [discriminate|].
  simpl. now rewrite E.
Qed.

Lemma lstrip_spaced : forall s b, spaced b s -> spaced false (lstrip s).
Proof.
  intros [|c r] b H; [reflexivity|].
  destruct (spaced_cons_inv _ _ _ H) as [(E & _ & _ & Hr)|(E & Hr)].
  - simpl. rewrite E. rewrite (spaced_true_lstrip _ Hr).
    now apply spaced_true_false.
  - simpl. rewrite E. unfold spaced in *. simpl. now rewrite E, Hr.
Qed.

Lemma rstrip_spaced : forall s b, spaced b s -> spaced b (rstrip s).
Proof.
  induction s as [|c r IH]; intros b H; [exact H|].
  destruct (spaced_cons_inv _ _ _ H) as [(E & -> & -> & Hr)|(E & Hr)].
  - specialize (IH _ Hr). cbn [rstrip]. destruct (rstrip r) as [|d r'] eqn:Er.
    + rewrite E. reflexivity.
    + unfold spaced in *.
      change (sub_spaces false (SP :: d :: r'))
        with (if is_space SP then SP :: sub_spaces true (d :: r')
              else SP :: sub_spaces false (d :: r')).
      rewrite E. now rewrite IH.
  - specialize (IH _ Hr). cbn [rstrip]. destruct (rstrip r) as [|d r'] eqn:Er.
    + rewrite E. unfold spaced. simpl. now rewrite E.
    + unfold spaced in *.
      change (sub_spaces b (c :: d :: r'))
        with (if is_space c
              then if b then sub_spaces true (d :: r') else SP :: sub_spaces true (d :: r')
              else c :: sub_spaces false (d :: r')).
      rewrite E. now rewrite IH.
Qed.

Lemma strip_spaced : forall s b, spaced b s -> spaced false (strip s).
Proof. intros s b H. unfold strip. eapply rstrip_spaced, lstrip_spaced, H. Qed.

Lemma kept_SP : kept alnum SP = true.
Proof. reflexivity. Qed.

Lemma sub_spaces_kept :
  forall s b, Forall (fun c => kept alnum c = true) s ->
              Forall (fun c => kept alnum c = true) (sub_spaces b s).
Proof.
  induction s as [|c r IH]; intros b H; simpl; [constructor|].
  inversion H as [|? ? Hc Hr]; subst.
  destruct (is_space c); [destruct b|]; auto using kept_SP.
Qed.

Lemma strip_special_kept :
  forall s, Forall (fun c => kept alnum c = true) (strip_special alnum s).
Proof.
  intros s. apply Forall_forall. intros c Hc.
  apply filter_In in Hc. tauto.
Qed.

Lemma strip_special_fixed :
  forall s, Forall (fun c => kept alnum c = true) s -> strip_special alnum s = s.
Proof.
  unfold strip_special.
  induction 1 as [|c r Hc Hr IH]; simpl; [reflexivity|].
  now rewrite Hc, IH.
Qed.

(** The whole of [_clean_text] in closed form: once [sub_spaces] has run no
    line feed is left, so the third and fourth steps change nothing beyond
    one [strip]. *)
Lemma clean_text_flat :
  forall t, _clean_text alnum t = strip (sub_spaces false (strip_special alnum t)).
Proof.
  intros [|c r]; [reflexivity|].
  unfold _clean_text.
  pose proof (sub_spaces_no_nl (strip_special alnum (c :: r)) false) as Hn.
  rewrite (sub_blank_lines_no_nl _ Hn), (split_nl_no_nl _ Hn).
  simpl map. simpl join_nl. apply strip_idem.
Qed.

Lemma clean_text_no_nl : forall t, no_nl (_clean_text alnum t).
Proof.
  intros t. rewrite clean_text_flat. apply strip_Forall, sub_spaces_no_nl.
Qed.

(** C5. Text cleaning is idempotent: cleaning the output of [_clean_text]
    again returns it unchanged, for every input text and every Unicode
    table. *)
Theorem clean_text_idempotent :
  forall t, _clean_text alnum (_clean_text alnum t) = _clean_text alnum t.
Proof.
  intros t. rewrite (clean_text_flat (_clean_text alnum t)), (clean_text_flat t).
  set (u := sub_spaces false (strip_special alnum t)).
  assert (Hk : Forall (fun c => kept alnum c = true) (strip u)).
  { apply strip_Forall, sub_spaces_kept, strip_special_kept. }
  assert (Hs : spaced false (strip u)).
  { eapply strip_spaced, sub_spaces_spaced. }
  rewrite (strip_special_fixed _ Hk). rewrite Hs. apply strip_idem.
Qed.

(** C2 (the code departs from the claim). On the two-line text made of
    [line one], a line feed and [line two], [_clean_text] returns the single
    line [line one line two]: the second step replaces every whitespace run,
    line feeds included, by one space, so the line break does not survive
    and the blank-line and per-line steps find nothing to do. *)
Theorem clean_text_joins_lines :
  _clean_text alnum (lit "line one" ++ [NL] ++ lit "line two") = lit "line one line two".
Proof. reflexivity. Qed.

End CleanTextFacts.

(* ------------------------------------------------------------------ *)
(** ** The confidence of one recognition *)
(* ------------------------------------------------------------------ *)

Lemma fold_left_add_shift :
  forall l a, fold_left Z.add l a = (a + py_sum l)%Z.
Proof.
  unfold py_sum. induction l as [|c r IH]; intros a; simpl; [lia|].
  rewrite (IH (a + c)%Z), (IH c). lia.
Qed.

Lemma py_sum_cons : forall c l, py_sum (c :: l) = (c + py_sum l)%Z.
Proof. intros c l. unfold py_sum at 1. simpl. apply fold_left_add_shift. Qed.

Lemma len_cons : forall (A : Type) (a : A) l, len (a :: l) = (1 + len l)%Z.
Proof. intros. unfold len. simpl List.length. lia. Qed.

Lemma len_nonneg : forall (A : Type) (l : list A), (0 <= len l)%Z.
Proof. intros. unfold len. lia. Qed.

Lemma len_app_one : forall (A : Type) (l : list A) a, len (l ++ [a]) = (len l + 1)%Z.
Proof. intros. unfold len. rewrite length_app. simpl. lia. Qed.

Lemma py_sum_filter :
  forall p l, py_sum (filter p l) = scored_sum p l.
Proof.
  induction l as [|c r IH]; [reflexivity|].
  simpl. destruct (p c); [rewrite py_sum_cons|]; now rewrite IH.
Qed.

Lemma len_filter :
  forall p (l : list Z), len (filter p l) = scored_count p l.
Proof.
  induction l as [|c r IH]; [reflexivity|].
  simpl. destruct (p c); [rewrite len_cons|]; now rewrite IH.
Qed.

Lemma inject_Z_nonzero : forall n, (n <> 0)%Z -> Qeq_bool (inject_Z n) 0 = false.
Proof.
  intros n Hn. destruct (Qeq_bool (inject_Z n) 0) eqn:E; [|reflexivity].
  apply Qeq_bool_eq in E. unfold Qeq in E. simpl in E. lia.
Qed.

Lemma py_truediv_ok :
  forall a n, (n <> 0)%Z ->
    exists q, py_truediv a (inject_Z n) = Ok q /\ q == a / inject_Z n.
Proof.
  intros a n Hn. unfold py_truediv. rewrite (inject_Z_nonzero n Hn).
  eexists. split; [reflexivity|]. apply Qred_correct.
Qed.

Lemma avg_confidence_shape :
  forall l, avg_confidence l = Ok (VInt 0) \/ exists q, avg_confidence l = Ok (VFloat q).
Proof.
  intros [|c l]; [now left|right].
  assert (Hn : (len (c :: l) <> 0)%Z) by (rewrite len_cons; pose proof (len_nonneg _ l); lia).
  destruct (py_truediv_ok (inject_Z (py_sum (c :: l))) _ Hn) as (q & Hq & _).
  exists q. unfold avg_confidence. now rewrite Hq.
Qed.

(** The two lines that compute the confidence never raise, and their value
    is the mean of the strictly positive scores. *)
Lemma avg_confidence_mean :
  forall data, exists v q,
    avg_confidence (confidences data) = Ok v /\ as_number v = Ok q /\
    (forall z, v = VInt z -> z = 0%Z) /\
    q == mean_of_scored positive_score (td_conf data).
Proof.
  intros data. unfold confidences, mean_of_scored.
  change (fun c : Z => (0 <? c)%Z) with positive_score.
  rewrite <- len_filter, <- py_sum_filter.
  destruct (filter positive_score (td_conf data)) as [|c l] eqn:E.
  - exists (VInt 0), (inject_Z 0). simpl. repeat split; try reflexivity.
    intros z Hz. now injection Hz as <-.
  - assert (Hn : (len (c :: l) <> 0)%Z) by (rewrite len_cons; pose proof (len_nonneg _ l); lia).
    destruct (py_truediv_ok (inject_Z (py_sum (c :: l))) _ Hn) as (q & Hq & Hm).
    exists (VFloat q), q. unfold avg_confidence. rewrite Hq. simpl bind.
    repeat split; try reflexivity; [discriminate|].
    destruct (Z.eqb_spec (len (c :: l)) 0); [contradiction|exact Hm].
Qed.

(** C1 (amended). Whenever [extract_text] returns a successful record, its
    confidence is the arithmetic mean of the scores of exactly those tokens
    whose score is strictly positive: tokens with score 0 or below are left
    out of numerator and denominator, and when no token has a positive
    score the confidence is 0; the computation divides by a non-zero count
    or not at all. *)
Theorem confidence_is_mean_of_positive_scores :
  forall w self image language config timeout image' data,
    ensure_mode w image = Ok image' ->
    image_to_data w image' (map_get LANGUAGE_MAP (str_lower w language) language) config
      = Ok data ->
    dict_get "success" (snd (extract_text w self image language config timeout))
      = Some (VBool true) ->
    exists v q,
      dict_get "confidence" (snd (extract_text w self image language config timeout)) = Some v
      /\ as_number v = Ok q
      /\ q == mean_of_scored positive_score (td_conf data).
Proof.
  intros w self image language config timeout image' data Hmode Hdata.
  unfold extract_text. rewrite Hmode. unfold recognise.
  destruct (image_to_string w image' _ config timeout) as [t|msg]; cbn [bind];
    [|simpl; discriminate].
  rewrite Hdata. cbn [bind].
  destruct (avg_confidence_mean data) as (v & q & Hv & Hq & _ & Hm).
  rewrite Hv. cbn [bind].
  destruct (_extract_word_boxes data) as [boxes|msg]; cbn [bind];
    [|simpl; discriminate].
  intros _. exists v, q. simpl. auto.
Qed.

Lemma confidence_is_mean_of_positive_scores_witness :
  exists v q,
    dict_get "confidence"
      (snd (extract_text desk init page (lit "english") default_config default_timeout)) = Some v
    /\ as_number v = Ok q
    /\ q == mean_of_scored positive_score (td_conf page_data).
Proof.
  apply (confidence_is_mean_of_positive_scores desk init page (lit "english")
           default_config default_timeout page page_data);
    reflexivity.
Defined.

(** C1 as stated fails. On the desk the engine reports the scores -1, 0 and
    100: the record carries confidence 100, the mean of the positive scores,
    while the mean of the non-negative scores 0 and 100 is 50. *)
Lemma confidence_skips_zero_scores :
  dict_get "confidence"
    (snd (extract_text desk init page (lit "english") default_config default_timeout))
    = Some (VFloat 100)
  /\ mean_of_scored non_negative (td_conf page_data) == 50.
Proof. split; reflexivity. Qed.

(* ------------------------------------------------------------------ *)
(** ** The counters and the records of an engine *)
(* ------------------------------------------------------------------ *)

Lemma dict_get_set_other :
  forall k k' v d, String.eqb k k' = false -> dict_get k (dict_set k' v d) = dict_get k d.
Proof.
  intros k k' v d H. induction d as [|[k0 v0] d IH]; simpl.
  - now rewrite H.
  - destruct (String.eqb k' k0) eqn:E; simpl.
    + apply String.eqb_eq in E. subst k0. now rewrite H.
    + now rewrite IH.
Qed.

Lemma dict_get_set_same :
  forall k v d, dict_get k (dict_set k v d) = Some v.
Proof.
  intros k v d. induction d as [|[k0 v0] d IH]; simpl.
  - now rewrite String.eqb_refl.
  - destruct (String.eqb k k0) eqn:E; simpl; [now rewrite String.eqb_refl|].
    now rewrite E.
Qed.

Lemma tag_get :
  forall k f p r,
    String.eqb k "filepath" = false -> String.eqb k "filename" = false ->
    dict_get k (tag f p r) = dict_get k r.
Proof.
  intros. unfold tag. now rewrite !dict_get_set_other.
Qed.

Lemma tag_reportable : forall f p r, reportable (tag f p r) = reportable r.
Proof.
  intros. unfold reportable. now rewrite !tag_get.
Qed.

Lemma tag_is_success : forall f p r, is_success (tag f p r) = is_success r.
Proof.
  intros. unfold is_success. now rewrite tag_get.
Qed.

Lemma update_last_snoc :
  forall f (l : list record) r, update_last f (l ++ [r]) = l ++ [f r].
Proof.
  intros. unfold update_last. rewrite rev_app_distr. simpl.
  now rewrite rev_involutive.
Qed.

Lemma recognise_reportable :
  forall w image language lang_code config timeout r t,
    recognise w image language lang_code config timeout = Ok (r, t) ->
    reportable r = true /\ is_success r = true.
Proof.
  intros w image language lang_code config timeout r t. unfold recognise.
  destruct (image_to_string w image lang_code config timeout) as [tx|m]; cbn [bind];
    [|discriminate].
  destruct (image_to_data w image lang_code config) as [data|m]; cbn [bind];
    [|discriminate].
  destruct (avg_confidence_shape (confidences data)) as [Hv|[q Hv]];
    rewrite Hv; cbn [bind];
    (destruct (_extract_word_boxes data) as [boxes|m]; cbn [bind]; [|discriminate]);
    intros H; injection H as <- _; split; reflexivity.
Qed.

(** What one call of [extract_text] does to the engine. *)
Lemma extract_text_step :
  forall w self image language config timeout,
    let e' := fst (extract_text w self image language config timeout) in
    let r := snd (extract_text w self image language config timeout) in
    ocr_results e' = ocr_results self ++ [r]
    /\ (total_images (performance_stats e')
        = total_images (performance_stats self) + 1)%Z
    /\ (successful (performance_stats e') + failed (performance_stats e')
        = successful (performance_stats self) + failed (performance_stats self) + 1)%Z
    /\ (successful (performance_stats self) <= successful (performance_stats e'))%Z
    /\ (failed (performance_stats self) <= failed (performance_stats e'))%Z
    /\ reportable r = true.
Proof.
  intros w self image language config timeout. unfold extract_text.
  destruct (ensure_mode w image) as [image'|m]; cbn [fst snd].
  - destruct (recognise w image' language _ config timeout) as [[r t]|m] eqn:E;
      cbn [fst snd].
    + apply recognise_reportable in E. simpl. repeat split; try lia. tauto.
    + simpl. repeat split; lia.
  - simpl. repeat split; lia.
Qed.

Lemma extract_text_sound :
  forall w self image language config timeout,
    sound self -> sound (fst (extract_text w self image language config timeout)).
Proof.
  intros w self image language config timeout [(H1 & H2 & H3 & H4) HF].
  destruct (extract_text_step w self image language config timeout)
    as (Hr & Ht & Hs & Hle1 & Hle2 & Hrep).
  split.
  - unfold counted. rewrite Hr, len_app_one. cbv zeta. lia.
  - rewrite Hr. apply Forall_app. split; [exact HF|]. now constructor.
Qed.

(** The handler of the loop body appends one failed record; it stops the
    loop exactly when its own print raises. *)
Lemma batch_handler_eq :
  forall w self results p m,
    exists stop,
      batch_handler w self results p m
      = (self, results ++ [batch_error_result w p m], stop)
      /\ ((forall n, print_line w n = Ok tt) -> stop = None).
Proof.
  intros w self results p m. unfold batch_handler.
  destruct (print_line w (FailedLine m)) as [u|m'] eqn:E.
  - exists None. split; [reflexivity|reflexivity].
  - exists (Some m'). split; [reflexivity|]. intros H. rewrite H in E. discriminate E.
Qed.

(** What one turn of the loop can do: stop at its first print with nothing
    changed; or append the failed record of an input that did not open; or
    store the tagged record of [extract_text], append it, and then perhaps
    append a failed record for the same input. *)
Lemma batch_step_cases :
  forall w save dir lang total self results index p,
    let out := batch_step w save dir lang total (self, results) index p in
    (exists m, out = (self, results, Some m))
    \/ (exists m stop,
          image_open w p = Raise m
          /\ out = (self, results ++ [batch_error_result w p m], stop))
    \/ (exists im added stop,
          image_open w p = Ok im
          /\ out = (with_results
                      (fst (extract_text w self im lang default_config default_timeout))
                      (ocr_results self
                       ++ [tag (basename w p) p
                             (snd (extract_text w self im lang default_config
                                     default_timeout))]),
                    results
                    ++ tag (basename w p) p
                         (snd (extract_text w self im lang default_config default_timeout))
                       :: added,
                    stop)
          /\ (added = [] \/ exists m, added = [batch_error_result w p m])).
Proof.
  intros w save dir lang total self results index p. cbv zeta. unfold batch_step.
  destruct (print_line w (Processing (index + 1) total (basename w p))) as [u|m];
    [|left; exists m; reflexivity].
  right. destruct (image_open w p) as [im|m].
  - right.
    pose proof (extract_text_step w self im lang default_config default_timeout) as Ha.
    apply proj1 in Ha. cbv zeta in Ha.
    destruct (extract_text w self im lang default_config default_timeout) as [e1 res] eqn:E.
    cbn [fst snd] in Ha. rewrite Ha, update_last_snoc.
    destruct (_ <- (if save
                    then _save_single_result w (tag (basename w p) p res) dir
                    else Ok tt) ;;
              announce w (tag (basename w p) p res)) as [u'|m].
    + exists im, [], None. rewrite E. cbn [fst snd].
      split; [reflexivity|]. split; [reflexivity|now left].
    + destruct (batch_handler_eq w
                  (with_results e1 (ocr_results self ++ [tag (basename w p) p res]))
                  (results ++ [tag (basename w p) p res]) p m) as (stop & Hh & _).
      rewrite Hh. exists im, [batch_error_result w p m], stop. rewrite E. cbn [fst snd].
      split; [reflexivity|]. split; [now rewrite <- app_assoc|right; now exists m].
  - left. destruct (batch_handler_eq w self results p m) as (stop & Hh & _).
    rewrite Hh. exists m, stop. split; reflexivity.
Qed.

(** A property of engines that [extract_text] keeps, and that survives
    tagging the last stored record, is kept by every turn of the loop. *)
Lemma batch_turns_invariant :
  forall (I : engine -> Prop) w,
    (forall self image language config timeout,
        I self -> I (fst (extract_text w self image language config timeout))) ->
    (forall e l r f p,
        I e -> ocr_results e = l ++ [r] -> I (with_results e (l ++ [tag f p r]))) ->
    forall save dir lang total paths index state,
      I (fst state) ->
      I (fst (fst (batch_turns w save dir lang total index paths state))).
Proof.
  intros I w Hext Htag save dir lang total.
  induction paths as [|p ps IH]; intros index [self results] Hs; cbn [batch_turns];
    [exact Hs|].
  cbn [fst] in Hs.
  assert (H1 : I (fst (fst (batch_step w save dir lang total (self, results) index p)))).
  { destruct (batch_step_cases w save dir lang total self results index p)
      as [(m & ->)|[(m & stop & _ & ->)|(im & added & stop & _ & -> & _)]];
      cbn [fst]; try exact Hs.
    apply Htag; [apply Hext, Hs|apply extract_text_step]. }
  destruct (batch_step w save dir lang total (self, results) index p) as [[e1 r1] [m|]];
    cbn [fst] in *; [exact H1|apply IH; exact H1].
Qed.

Lemma batch_process_invariant :
  forall (I : engine -> Prop) w,
    (forall self image language config timeout,
        I self -> I (fst (extract_text w self image language config timeout))) ->
    (forall e l r f p,
        I e -> ocr_results e = l ++ [r] -> I (with_results e (l ++ [tag f p r]))) ->
    forall self image_paths language save_results output_dir,
      I self ->
      I (fst (batch_process w self image_paths language save_results output_dir)).
Proof.
  intros I w Hext Htag self image_paths language save_results output_dir Hs.
  unfold batch_process.
  destruct (if save_results && negb (path_exists w output_dir)
            then makedirs w output_dir else Ok tt); [|exact Hs].
  unfold batch_loop.
  pose proof (batch_turns_invariant I w Hext Htag save_results output_dir language
                (len image_paths) image_paths 0%Z (self, []) Hs) as H.
  destruct (batch_turns w save_results output_dir language (len image_paths) 0
              image_paths (self, [])) as [[e rs] [m|]]; exact H.
Qed.

(** An invariant of the constructor's state that [extract_text] keeps, and
    that survives tagging the last stored record, holds after every
    history. *)
Lemma engine_after_invariant :
  forall (I : engine -> Prop),
    I init ->
    (forall w self image language config timeout,
        I self -> I (fst (extract_text w self image language config timeout))) ->
    (forall e l r f p,
        I e -> ocr_results e = l ++ [r] -> I (with_results e (l ++ [tag f p r]))) ->
    forall w calls, I (engine_after w calls).
Proof.
  intros I Hinit Hext Htag w calls. unfold engine_after.
  assert (Hperf : forall e c, I e -> I (perform w e c)).
  { intros e [im lang cfg t|paths lang save dir] He; cbn [perform].
    - now apply Hext.
    - apply batch_process_invariant; [apply Hext|exact Htag|exact He]. }
  assert (H : forall e, I e -> I (fold_left (perform w) calls e)).
  { induction calls as [|c cs IH]; intros e He; [exact He|].
    cbn [fold_left]. apply IH, Hperf, He. }
  apply H, Hinit.
Qed.

Lemma sound_tag :
  forall e l r f p,
    sound e -> ocr_results e = l ++ [r] -> sound (with_results e (l ++ [tag f p r])).
Proof.
  intros e l r f p [(H1 & H2 & H3 & H4) HF] Hl. rewrite Hl in *. split.
  - unfold counted. cbn [with_results ocr_results performance_stats].
    rewrite len_app_one in *. lia.
  - cbn [with_results ocr_results]. apply Forall_app in HF as [HF1 HF2].
    apply Forall_app. split; [exact HF1|].
    constructor; [|constructor]. rewrite tag_reportable. now inversion HF2.
Qed.

(** The loop of [batch_process] appends only reportable records: none when
    it stops at its first print, and one or two per input otherwise. *)
Lemma batch_turns_results :
  forall w save dir lang total paths index state,
    Forall (fun r => reportable r = true) (snd state) ->
    let final := batch_turns w save dir lang total index paths state in
    Forall (fun r => reportable r = true) (snd (fst final))
    /\ (snd final = None ->
        len (snd state) + len paths <= len (snd (fst final))
        <= len (snd state) + 2 * len paths)%Z.
Proof.
  intros w save dir lang total.
  induction paths as [|p ps IH]; intros index [self results] Hr; cbn [batch_turns].
  - cbn [fst snd] in *. change (len (@nil text)) with 0%Z. split; [exact Hr|lia].
  - cbn [snd] in Hr.
    assert (H1 : Forall (fun r => reportable r = true)
                   (snd (fst (batch_step w save dir lang total (self, results) index p)))
                 /\ (snd (batch_step w save dir lang total (self, results) index p) = None ->
                     len results + 1
                     <= len (snd (fst (batch_step w save dir lang total (self, results)
                                         index p)))
                     <= len results + 2)%Z).
    { destruct (batch_step_cases w save dir lang total self results index p)
        as [(m & ->)|[(m & stop & _ & ->)|(im & added & stop & _ & -> & Hadd)]];
        cbn [fst snd].
      - split; [exact Hr|discriminate].
      - rewrite len_app_one. split; [|lia].
        apply Forall_app. split; [exact Hr|now constructor].
      - destruct (extract_text_step w self im lang default_config default_timeout)
          as (_ & _ & _ & _ & _ & Hrep).
        assert (Ht : reportable (tag (basename w p) p
                       (snd (extract_text w self im lang default_config default_timeout)))
                     = true) by now rewrite tag_reportable.
        destruct Hadd as [->|(m & ->)].
        + rewrite len_app_one. split; [|lia].
          apply Forall_app. split; [exact Hr|now constructor].
        + replace (results ++ [_; _]) with ((results ++ [tag (basename w p) p
                     (snd (extract_text w self im lang default_config default_timeout))])
                     ++ [batch_error_result w p m]) by now rewrite <- app_assoc.
          rewrite !len_app_one. split; [|lia].
          apply Forall_app. split; [|now constructor].
          apply Forall_app. split; [exact Hr|now constructor]. }
    destruct H1 as [F1 L1]. rewrite len_cons.
    destruct (batch_step w save dir lang total (self, results) index p)
      as [[e1 r1] [m|]]; cbn [fst snd] in *.
    + split; [exact F1|discriminate].
    + destruct (IH (index + 1)%Z (e1, r1) F1) as [F2 L2]. cbn [snd] in L2.
      split; [exact F2|]. intros E. specialize (L1 eq_refl). specialize (L2 E). lia.
Qed.

Lemma batch_process_sound :
  forall w self image_paths language save_results output_dir,
    sound self ->
    sound (fst (batch_process w self image_paths language save_results output_dir)).
Proof.
  intros w self image_paths language save_results output_dir.
  apply (batch_process_invariant sound w).
  - intros. now apply extract_text_sound.
  - intros. eapply sound_tag; eassumption.
Qed.

Lemma init_sound : sound init.
Proof. split; [unfold counted; simpl; unfold len; simpl; lia|constructor]. Qed.

Lemma perform_sound : forall w self c, sound self -> sound (perform w self c).
Proof.
  intros w self [image language config timeout|paths language save dir] Hs; simpl.
  - now apply extract_text_sound.
  - now apply batch_process_sound.
Qed.

Lemma engine_after_sound : forall w calls, sound (engine_after w calls).
Proof.
  intros w calls. unfold engine_after.
  assert (H : forall e, sound e -> sound (fold_left (perform w) calls e)).
  { induction calls as [|c cs IH]; intros e He; simpl; [exact He|].
    apply IH, perform_sound, He. }
  apply H, init_sound.
Qed.

(** C10. After any history of calls on one engine, calls of [extract_text]
    and of [batch_process] alike, [total_images] is the sum of [successful]
    and [failed] and is the number of stored records; and one more call of
    [extract_text], whether it succeeds or fails, appends exactly the record
    it returns and adds exactly one to [total_images]. *)
Theorem stats_count_the_results :
  forall w calls image language config timeout,
    let self := engine_after w calls in
    let e' := fst (extract_text w self image language config timeout) in
    let r := snd (extract_text w self image language config timeout) in
    (total_images (performance_stats self)
       = successful (performance_stats self) + failed (performance_stats self)
     /\ total_images (performance_stats self) = len (ocr_results self)
     /\ ocr_results e' = ocr_results self ++ [r]
     /\ total_images (performance_stats e') = total_images (performance_stats self) + 1
     /\ successful (performance_stats e') + failed (performance_stats e')
        = successful (performance_stats self) + failed (performance_stats self) + 1)%Z.
Proof.
  intros w calls image language config timeout self e' r.
  destruct (engine_after_sound w calls) as [(H1 & H2 & _) _].
  destruct (extract_text_step w self image language config timeout)
    as (Ha & Ht & Hs & _).
  repeat split; assumption.
Qed.

(* ------------------------------------------------------------------ *)
(** ** The aggregates of a batch *)
(* ------------------------------------------------------------------ *)

Lemma reportable_success_of :
  forall r, reportable r = true -> success_of r = Ok (is_success r).
Proof.
  intros r H. unfold reportable in H. unfold success_of, dict_item, is_success.
  destruct (dict_get "success" r) as [[]|]; try discriminate. reflexivity.
Qed.

Lemma select_filter :
  forall want l, Forall (fun r => reportable r = true) l ->
    select want l = Ok (filter (fun r => Bool.eqb (is_success r) want) l).
Proof.
  intros want l H. induction H as [|r l Hr Hl IH]; [reflexivity|].
  cbn [select filter]. rewrite (reportable_success_of r Hr). cbn [bind].
  rewrite IH. cbn [bind]. now destruct (Bool.eqb (is_success r) want).
Qed.

Lemma filter_is_success :
  forall l, filter (fun r => Bool.eqb (is_success r) true) l = filter is_success l.
Proof.
  intros l. apply filter_ext. intros r. now destruct (is_success r).
Qed.

Lemma numbers_confidence :
  forall l, Forall (fun r => reportable r = true) l ->
    Forall (fun r => is_success r = true) l ->
    numbers "confidence" l = Ok (map (number_of "confidence") l)
    /\ numbers "char_count" l = Ok (map (number_of "char_count") l).
Proof.
  intros l H. induction H as [|r l Hr Hl IH]; intros Hs; [split; reflexivity|].
  inversion Hs as [|? ? Hsr Hsl]; subst. destruct (IH Hsl) as [IH1 IH2].
  cbn [numbers map]. rewrite IH1, IH2.
  unfold reportable in Hr. unfold is_success in Hsr.
  unfold dict_item, number_of.
  destruct (dict_get "success" r) as [[| [] | | | | |]|]; try discriminate.
  destruct (dict_get "confidence" r) as [[]|]; try discriminate;
    (destruct (dict_get "char_count" r) as [[]|]; try discriminate);
    split; reflexivity.
Qed.

Lemma filter_Forall_both :
  forall (l : list record),
    Forall (fun r => reportable r = true) l ->
    Forall (fun r => reportable r = true) (filter is_success l)
    /\ Forall (fun r => is_success r = true) (filter is_success l).
Proof.
  intros l H. split; apply Forall_forall; intros r Hin;
    apply filter_In in Hin as [Hin Hs]; [|exact Hs].
  rewrite Forall_forall in H. auto.
Qed.

Lemma report_lines_ok :
  forall l, Forall (fun r => reportable r = true) l -> exists ls, report_lines l = Ok ls.
Proof.
  intros l H. induction H as [|r l Hr Hl [ls IH]]; [now exists []|].
  cbn [report_lines]. rewrite IH.
  assert (exists x, report_line_of r = Ok x) as [x Hx].
  { unfold report_line_of. rewrite (reportable_success_of r Hr). cbn [bind].
    unfold reportable in Hr. unfold is_success, dict_item.
    destruct (dict_get "success" r) as [[| [] | | | | |]|]; try discriminate;
      cbn [truthy]; [|eexists; reflexivity].
    destruct (dict_get "confidence" r) as [[]|]; try discriminate;
      (destruct (dict_get "char_count" r) as [[]|]; try discriminate);
      (destruct (dict_get "word_count" r); try discriminate);
      (destruct (dict_get "text" r) as [[]|]; try discriminate);
      eexists; reflexivity. }
  rewrite Hx. eexists. reflexivity.
Qed.

Lemma batch_aggregates_ok :
  forall l, Forall (fun r => reportable r = true) l ->
    Forall (fun r => is_success r = true) l ->
    exists agg, batch_aggregates l = Ok agg
      /\ match agg with
         | None => l = []
         | Some (avg_conf, total) =>
             l <> []
             /\ avg_conf == py_qsum (map (number_of "confidence") l) / inject_Z (len l)
             /\ total = py_qsum (map (number_of "char_count") l)
         end.
Proof.
  intros l Hr Hs. destruct l as [|r l]; [exists None; split; reflexivity|].
  destruct (numbers_confidence _ Hr Hs) as [Hc Hn].
  assert (Hlen : (len (r :: l) <> 0)%Z)
    by (rewrite len_cons; pose proof (len_nonneg _ l); lia).
  destruct (py_truediv_ok (py_qsum (map (number_of "confidence") (r :: l))) _ Hlen)
    as (q & Hq & Hm).
  exists (Some (q, py_qsum (map (number_of "char_count") (r :: l)))).
  unfold batch_aggregates. rewrite Hc. cbn [bind]. rewrite Hq. cbn [bind].
  rewrite Hn. cbn [bind]. split; [reflexivity|].
  split; [discriminate|]. split; [exact Hm|reflexivity].
Qed.

Lemma batch_report_ok :
  forall results, Forall (fun r => reportable r = true) results ->
    exists report,
      batch_report_of results = Ok report
      /\ br_total report = len results
      /\ br_successful report = len (filter is_success results)
      /\ match br_aggregates report with
         | None => filter is_success results = []
         | Some (avg_conf, total) =>
             filter is_success results <> []
             /\ avg_conf ==
                  py_qsum (map (number_of "confidence") (filter is_success results))
                  / inject_Z (len (filter is_success results))
             /\ total = py_qsum (map (number_of "char_count") (filter is_success results))
         end.
Proof.
  intros results H. unfold batch_report_of.
  rewrite !(select_filter _ _ H). cbn [bind]. rewrite filter_is_success.
  destruct (filter_Forall_both results H) as [H1 H2].
  destruct (batch_aggregates_ok _ H1 H2) as (agg & Ha & Hagg).
  rewrite Ha. cbn [bind].
  destruct (report_lines_ok results H) as (ls & Hls). rewrite Hls. cbn [bind].
  eexists. split; [reflexivity|]. cbn. auto.
Qed.

Lemma performance_report_ok :
  forall e, sound e ->
    exists pr,
      get_performance_report e = Ok pr
      /\ match pr_avg_conf pr with
         | None => True
         | Some avg =>
             filter is_success (ocr_results e) <> []
             /\ avg ==
                  py_qsum (map (number_of "confidence") (filter is_success (ocr_results e)))
                  / inject_Z (len (filter is_success (ocr_results e)))
         end.
Proof.
  intros e [(H1 & H2 & H3 & H4) HF]. unfold get_performance_report.
  destruct (Z.gtb_spec (successful (performance_stats e)) 0) as [Hpos|Hle];
    [|eexists; split; [reflexivity|exact I]].
  assert (Ht : (total_images (performance_stats e) <> 0)%Z) by lia.
  destruct (py_truediv_ok (inject_Z (successful (performance_stats e))) _ Ht)
    as (ratio & Hratio & _).
  rewrite Hratio. cbn [bind].
  rewrite (select_filter _ _ HF). cbn [bind]. rewrite filter_is_success.
  destruct (filter_Forall_both _ HF) as [F1 F2].
  destruct (numbers_confidence _ F1 F2) as [Hc _]. rewrite Hc. cbn [bind].
  destruct (filter is_success (ocr_results e)) as [|r l] eqn:E.
  - cbn. eexists. split; [reflexivity|exact I].
  - cbn [map].
    assert (Hlen : (len (number_of "confidence" r :: map (number_of "confidence") l) <> 0)%Z)
      by (rewrite len_cons; pose proof (len_nonneg _ (map (number_of "confidence") l)); lia).
    destruct (py_truediv_ok
                (py_qsum (number_of "confidence" r :: map (number_of "confidence") l)) _ Hlen)
      as (q & Hq & Hm).
    rewrite Hq. cbn [bind]. eexists. split; [reflexivity|]. cbn [pr_avg_conf].
    split; [discriminate|]. rewrite Hm.
    replace (len (number_of "confidence" r :: map (number_of "confidence") l))
      with (len (r :: l)); [reflexivity|].
    unfold len. simpl. now rewrite length_map.
Qed.

Lemma batch_process_returns :
  forall w self image_paths language save_results output_dir results,
    snd (batch_process w self image_paths language save_results output_dir) = Ok results ->
    batch_loop w save_results output_dir language self image_paths
    = (fst (batch_process w self image_paths language save_results output_dir),
       results, None).
Proof.
  intros w self image_paths language save_results output_dir results.
  unfold batch_process.
  destruct (if save_results && negb (path_exists w output_dir)
            then makedirs w output_dir else Ok tt); [|discriminate].
  destruct (batch_loop w save_results output_dir language self image_paths)
    as [[e rs] [m|]]; cbn [fst snd]; [discriminate|].
  destruct (if save_results then _save_batch_report w rs output_dir else Ok tt);
    cbn [bind]; [|discriminate].
  now intros [= <-].
Qed.

Lemma py_sum_snoc : forall l x, py_sum (l ++ [x]) = (py_sum l + x)%Z.
Proof. intros l x. unfold py_sum. now rewrite fold_left_app. Qed.

Lemma char_count_of_tag : forall f p r, char_count_of (tag f p r) = char_count_of r.
Proof. intros. unfold char_count_of. now rewrite tag_get. Qed.

Lemma tallied_snoc :
  forall (l : list record) r,
    filter is_success (l ++ [r])
    = filter is_success l ++ (if is_success r then [r] else [])
    /\ filter (fun r => negb (is_success r)) (l ++ [r])
       = filter (fun r => negb (is_success r)) l ++ (if is_success r then [] else [r]).
Proof.
  intros l r. rewrite !filter_app. cbn [filter]. now destruct (is_success r).
Qed.

Lemma tallied_init : tallied init.
Proof. repeat split. Qed.

Lemma tallied_extract_text :
  forall w self image language config timeout,
    tallied self -> tallied (fst (extract_text w self image language config timeout)).
Proof.
  intros w self image language config timeout (H1 & H2 & H3).
  unfold extract_text.
  assert (Hfail : forall im msg,
             tallied (record_failure self (error_result im language msg))).
  { intros im msg. unfold tallied. cbn [record_failure ocr_results performance_stats
      successful failed total_chars].
    destruct (tallied_snoc (ocr_results self) (error_result im language msg)) as [-> ->].
    change (is_success (error_result im language msg)) with false. cbv iota.
    rewrite app_nil_r, len_app_one. rewrite H1, H2, H3. repeat split. }
  destruct (ensure_mode w image) as [image'|m]; cbn [fst]; [|apply Hfail].
  destruct (recognise w image' language _ config timeout) as [[r t]|m] eqn:E;
    cbn [fst]; [|apply Hfail].
  assert (Hr : is_success r = true /\ char_count_of r = len t).
  { unfold recognise in E.
    destruct (image_to_string w image' _ config timeout); cbn [bind] in E;
      [|discriminate].
    destruct (image_to_data w image' _ config); cbn [bind] in E; [|discriminate].
    destruct (avg_confidence _); cbn [bind] in E; [|discriminate].
    destruct (_extract_word_boxes _); cbn [bind] in E; [|discriminate].
    injection E as <- <-. split; reflexivity. }
  destruct Hr as [Hs Hc]. unfold tallied.
  cbn [record_success ocr_results performance_stats successful failed total_chars].
  destruct (tallied_snoc (ocr_results self) r) as [-> ->]. rewrite Hs.
  rewrite app_nil_r, len_app_one, map_app. cbn [map]. rewrite py_sum_snoc.
  rewrite H1, H2, H3, Hc. repeat split.
Qed.

Lemma tallied_tag :
  forall e l r f p,
    tallied e -> ocr_results e = l ++ [r] -> tallied (with_results e (l ++ [tag f p r])).
Proof.
  intros e l r f p (H1 & H2 & H3) Hl. unfold tallied in *.
  cbn [with_results ocr_results performance_stats]. rewrite Hl in *.
  destruct (tallied_snoc l r) as [E1 E2]. destruct (tallied_snoc l (tag f p r)) as [-> ->].
  rewrite E1, E2 in *. rewrite tag_is_success.
  destruct (is_success r).
  - rewrite !len_app_one, !map_app in *. cbn [map] in *.
    rewrite !py_sum_snoc in *. rewrite char_count_of_tag.
    repeat split; lia.
  - rewrite !app_nil_r in *. rewrite !len_app_one in *. repeat split; lia.
Qed.

(** On an engine whose counters tell what its records hold, the performance
    report leaves the average out only when no stored record succeeded. *)
Lemma performance_report_tight :
  forall e, sound e -> tallied e ->
    exists pr,
      get_performance_report e = Ok pr
      /\ match pr_avg_conf pr with
         | None => filter is_success (ocr_results e) = []
         | Some avg =>
             filter is_success (ocr_results e) <> []
             /\ avg ==
                  py_qsum (map (number_of "confidence") (filter is_success (ocr_results e)))
                  / inject_Z (len (filter is_success (ocr_results e)))
         end.
Proof.
  intros e Hs (T1 & _ & _).
  destruct (performance_report_ok e Hs) as (pr & Hpr & Havg).
  exists pr. split; [exact Hpr|].
  destruct (pr_avg_conf pr) as [avg|] eqn:E; [exact Havg|].
  destruct Hs as [(H1 & H2 & H3 & H4) HF].
  unfold get_performance_report in Hpr.
  destruct (Z.gtb_spec (successful (performance_stats e)) 0) as [Hpos|Hle].
  - exfalso.
    assert (Ht : (total_images (performance_stats e) <> 0)%Z) by lia.
    destruct (py_truediv_ok (inject_Z (successful (performance_stats e))) _ Ht)
      as (ratio & Hratio & _).
    rewrite Hratio in Hpr. cbn [bind] in Hpr.
    rewrite (select_filter _ _ HF) in Hpr. cbn [bind] in Hpr.
    rewrite filter_is_success in Hpr.
    destruct (filter_Forall_both _ HF) as [F1 F2].
    destruct (numbers_confidence _ F1 F2) as [Hc _]. rewrite Hc in Hpr. cbn [bind] in Hpr.
    destruct (filter is_success (ocr_results e)) as [|r l] eqn:Ef.
    + change (len (@nil record)) with 0%Z in T1. lia.
    + cbn [map] in Hpr.
      destruct (py_truediv _ _) in Hpr; cbn [bind] in Hpr; [|discriminate Hpr].
      injection Hpr as <-. cbn [pr_avg_conf] in E. discriminate E.
  - assert (Hz : len (filter is_success (ocr_results e)) = 0%Z) by lia.
    destruct (filter is_success (ocr_results e)); [reflexivity|].
    rewrite len_cons in Hz. pose proof (len_nonneg _ l). lia.
Qed.

(** C9. For every batch, run on an engine with any history, the aggregates
    of the records the loop has gathered are computed without raising: with
    no successful record the report computes none (no division takes
    place), and otherwise the average confidence and the total of
    characters range over the successful records only, the divisor being
    their non-zero number.  When the loop has gone through all the inputs
    the list holds at least one record per input.  The same holds for the
    performance report of the engine after the batch: it leaves the average
    out only when no stored record succeeded, and otherwise averages over
    the stored records that succeeded, and over those only. *)
Theorem batch_aggregates_are_safe :
  forall w calls image_paths language save_results output_dir,
    let final := batch_loop w save_results output_dir language
                   (engine_after w calls) image_paths in
    let results := snd (fst final) in
    let engine_then := fst (fst final) in
    let succeeded := filter is_success results in
    (snd final = None -> (len image_paths <= len results)%Z)
    /\ (exists report,
          batch_report_of results = Ok report
          /\ br_successful report = len succeeded
          /\ match br_aggregates report with
             | None => succeeded = []
             | Some (avg_conf, total) =>
                 succeeded <> []
                 /\ avg_conf == py_qsum (map (number_of "confidence") succeeded)
                                / inject_Z (len succeeded)
                 /\ total = py_qsum (map (number_of "char_count") succeeded)
             end)
    /\ (exists pr,
          get_performance_report engine_then = Ok pr
          /\ match pr_avg_conf pr with
             | None => filter is_success (ocr_results engine_then) = []
             | Some avg =>
                 filter is_success (ocr_results engine_then) <> []
                 /\ avg == py_qsum (map (number_of "confidence")
                                      (filter is_success (ocr_results engine_then)))
                           / inject_Z (len (filter is_success (ocr_results engine_then)))
             end).
Proof.
  intros w calls image_paths language save_results output_dir final results engine_then
    succeeded.
  destruct (batch_turns_results w save_results output_dir language (len image_paths)
              image_paths 0%Z (engine_after w calls, []) (Forall_nil _)) as [Hr Hl].
  fold (batch_loop w save_results output_dir language (engine_after w calls) image_paths)
    in Hr, Hl.
  fold final in Hr, Hl. fold results in Hr, Hl.
  cbn [snd] in Hl. change (len (@nil record)) with 0%Z in Hl.
  split; [intros E; specialize (Hl E); lia|]. split.
  - destruct (batch_report_ok _ Hr) as (report & H1 & _ & H3 & H4).
    exists report. auto.
  - apply performance_report_tight.
    + apply (batch_turns_invariant sound w
               ltac:(intros; now apply extract_text_sound)
               ltac:(intros; eapply sound_tag; eassumption)).
      apply engine_after_sound.
    + apply (batch_turns_invariant tallied w (tallied_extract_text w) tallied_tag).
      apply (engine_after_invariant tallied tallied_init tallied_extract_text tallied_tag).
Qed.

(** C3 (the code departs from the claim). A batch of two inputs on the desk,
    where the text file of the first cannot be written: the list returned
    has three records.  The first input already stands in the list as a
    success when the write fails, and the handler appends a failed record
    for it as well; the record at index 1 is not that of the second
    input. *)
Theorem batch_appends_twice_on_write_failure :
  match snd (batch_process desk init [lit "locked.png"; lit "in/a.png"]
               (lit "english") true (lit "out")) with
  | Ok results =>
      map (fun r => (is_success r, dict_get "filename" r, dict_get "error" r)) results
      = [ (true, Some (VStr (lit "locked.png")), Some VNone);
          (false, Some (VStr (lit "locked.png")), Some (VStr (lit "Permission denied")));
          (true, Some (VStr (lit "a.png")), Some VNone) ]
  | Raise _ => False
  end.
Proof. vm_compute. reflexivity. Qed.

(** C4 (the code departs from the claim). A batch whose single input cannot
    be opened: the record appended by the handler of [batch_process] holds
    the four keys [success], [filename], [error] and [text] and nothing
    else; [confidence], [word_count] and [char_count] are absent. *)
Theorem batch_failure_record_is_partial :
  snd (batch_process desk init [lit "torn.png"] (lit "english") true (lit "out"))
  = Ok [ [ ("success", VBool false);
           ("filename", VStr (lit "torn.png"));
           ("error", VStr (lit "cannot identify image file"));
           ("text", VStr []) ]%string ]
  /\ map (fun k => dict_get k (batch_error_result desk (lit "torn.png")
                                 (lit "cannot identify image file")))
       ["confidence"; "word_count"; "char_count"]%string
     = [None; None; None].
Proof. split; vm_compute; reflexivity. Qed.

(** X9. The failure path of [extract_text] itself does fill every field
    the claim names. *)
Lemma extract_text_failure_is_populated :
  forall w self image language config timeout,
    is_success (snd (extract_text w self image language config timeout)) = false ->
    exists msg size,
      snd (extract_text w self image language config timeout)
      = [ ("success", VBool false); ("text", VStr []); ("raw_text", VStr []);
          ("language", VStr language); ("confidence", VInt 0);
          ("word_count", VInt 0); ("char_count", VInt 0);
          ("error", VStr msg); ("image_size", VSize size) ]%string.
Proof.
  intros w self image language config timeout. unfold extract_text.
  destruct (ensure_mode w image) as [image'|m]; cbn [snd].
  - destruct (recognise w image' language _ config timeout) as [[r t]|m] eqn:E;
      cbn [snd].
    + apply recognise_reportable in E as [_ E]. congruence.
    + intros _. eexists _, _. reflexivity.
  - intros _. eexists _, _. reflexivity.
Qed.

(* ------------------------------------------------------------------ *)
(** ** Brightness and contrast *)
(* ------------------------------------------------------------------ *)

(** C8. With brightness 1.0 and contrast 1.0 the enhancement returns the
    image it was given and leaves the step log as it was, calling no
    enhancer; in general each factor is applied exactly when it differs from
    1.0, brightness before contrast, and logged exactly then, whatever the
    other factor is. *)
Theorem unit_factors_are_skipped :
  forall P self image brightness contrast,
    adjust_brightness_contrast P self image 1 1 = Ok (image, self)
    /\ adjust_brightness_contrast P self image brightness contrast
       = (mid <- (if Qeq_bool brightness 1 then Ok image
                  else pil_enhance P Brightness image brightness) ;;
          out <- (if Qeq_bool contrast 1 then Ok mid
                  else pil_enhance P Contrast mid contrast) ;;
          Ok (out, {| processing_steps :=
                        processing_steps self ++ enhancement_entries brightness contrast;
                      debug_mode := debug_mode self |})).
Proof.
  intros P [steps debug] image brightness contrast. split; [reflexivity|].
  unfold adjust_brightness_contrast, enhancement_entries, log.
  cbn [processing_steps debug_mode].
  destruct (Qeq_bool brightness 1); cbn [negb bind].
  - destruct (Qeq_bool contrast 1); cbn [negb bind].
    + now rewrite app_nil_r.
    + destruct (pil_enhance P Contrast image contrast); reflexivity.
  - destruct (pil_enhance P Brightness image brightness) as [mid|m]; cbn [bind];
      [|reflexivity].
    destruct (Qeq_bool contrast 1); cbn [negb bind].
    + now rewrite app_nil_r.
    + destruct (pil_enhance P Contrast mid contrast); cbn [bind]; [|reflexivity].
      cbn [processing_steps debug_mode]. now rewrite <- app_assoc.
Qed.

(* ------------------------------------------------------------------ *)
(** ** Noise reduction *)
(* ------------------------------------------------------------------ *)

(** C6 (amended). For every image, size and method name outside median,
    gaussian, min and max, [remove_noise] does not raise, returns the image
    it was given and leaves the step log unchanged: the fallback is silent. *)
Theorem unsupported_noise_method_passes_through :
  forall P self image method size,
    supported_method method = false ->
    remove_noise P self image method size = Ok (image, self).
Proof.
  intros P self image method size H. unfold supported_method in H.
  cbn [existsb] in H. unfold remove_noise.
  destruct (text_eqb method (lit "median")); [discriminate|].
  destruct (text_eqb method (lit "gaussian")); [discriminate|].
  destruct (text_eqb method (lit "min")); [discriminate|].
  destruct (text_eqb method (lit "max")); [discriminate|].
  reflexivity.
Qed.

Lemma unsupported_noise_method_passes_through_witness :
  remove_noise studio busy_processor sheet (lit "bilateral") 3 = Ok (sheet, busy_processor).
Proof.
  apply (unsupported_noise_method_passes_through studio busy_processor sheet
           (lit "bilateral") 3).
  reflexivity.
Defined.

(** C6 as stated fails. In the studio, asked for the method [bilateral],
    [remove_noise] returns the sheet and a step log that still holds the one
    entry it held before: no note records the fallback. *)
Lemma unsupported_noise_method_logs_nothing :
  match remove_noise studio busy_processor sheet (lit "bilateral") 3 with
  | Ok (out, self') =>
      out = sheet
      /\ processing_steps self' = [[Str "Converted to grayscale"]]
      /\ processing_steps self' = processing_steps busy_processor
  | Raise _ => False
  end.
Proof. vm_compute. repeat split. Qed.

(** X23. The one step that does degrade to a logged fallback: whatever the
    library raises, [deskew_image] returns its input and logs that nothing
    was applied. *)
Lemma deskew_image_falls_back :
  forall P self image msg,
    pil_autocontrast P image 2 = Raise msg ->
    deskew_image P self image = (image, log self [Str "Deskewing not applied"]).
Proof. intros P self image msg H. unfold deskew_image. now rewrite H. Qed.

(* ------------------------------------------------------------------ *)
(** ** The downscale step *)
(* ------------------------------------------------------------------ *)


Lemma py_int_floor : forall x, 0 <= x -> py_int x = Qfloor x.
Proof.
  intros [n d] H. unfold py_int, Qfloor. simpl.
  apply Z.quot_div_nonneg; [|lia].
  unfold Qle in H. simpl in H. lia.
Qed.


Lemma inject_Z_pos : forall d, (0 < d)%Z -> 0 < inject_Z d.
Proof. intros d H. unfold Qlt. simpl. lia. Qed.

Lemma inject_Z_le : forall a b, (a <= b)%Z -> inject_Z a <= inject_Z b.
Proof. intros a b H. rewrite <- Zle_Qle. exact H. Qed.

Section Ratio.
Variable fl : Q -> Q.
Hypothesis Hfl : rounds_to_nearest fl.

End Ratio.




Lemma exact_rounds_to_nearest : rounds_to_nearest exact.
Proof. intros x Hx. unfold exact, unit_roundoff. split; nra. Qed.



(** What the step asks for a strip of 3000 by 1: a size of 1500 by 0.  The
    shorter side truncates to nothing.  (The resize of the studio takes any
    size, so the request shows in what it returns.) *)
Example thin_strip_request :
  resize_if_too_large studio exact new_processor
    {| img_size := (3000, 1)%Z; img_mode := lit "L"; img_format := None; img_pixels := [] |}
  = Ok ({| img_size := (1500, 0)%Z; img_mode := lit "L"; img_format := None;
           img_pixels := [] |},
        log new_processor (resized_entry (1500, 1500)%Z (3000, 1)%Z (1500, 0)%Z)).
Proof. reflexivity. Qed.

Lemma narrow_studio_resize_contract : resize_contract narrow_studio.
Proof.
  intros im s Hw Hh. exists (with_size im s). cbn [pil_resize narrow_studio].
  apply Z.ltb_lt in Hw, Hh. rewrite Hw, Hh. split; reflexivity.
Qed.

(** C7 (the code departs from the claim). A scan of 3000 by 1 has a longer
    side above 2000, and the downscale step produces no output for it: the
    ratio is 0.5, the shorter side truncates to 0, and the library, which
    resizes to any size with positive sides, refuses the size 1500 by 0.
    Nothing catches the error: [resize_image] raises, the step raises and
    the whole pipeline raises. *)
Theorem thin_strip_breaks_the_downscale :
  (py_max (fst (img_size strip_scan)) (snd (img_size strip_scan)) >? 2000)%Z = true
  /\ resize_image narrow_studio exact new_processor strip_scan None (Some (1500, 1500)%Z)
     = Raise (lit "height and width must be > 0")
  /\ resize_if_too_large narrow_studio exact new_processor strip_scan
     = Raise (lit "height and width must be > 0")
  /\ full_preprocessing_pipeline narrow_studio exact new_processor (lit "strip.png")
       None false
     = Raise (lit "height and width must be > 0").
Proof. repeat split; vm_compute; reflexivity. Qed.

(** Steps other than the deskew have no fallback: asked to save its output
    where files cannot be written, the pipeline raises what the library
    raised. *)
Lemma pipeline_raises_when_save_fails :
  full_preprocessing_pipeline read_only_studio exact new_processor (lit "scan.png")
    (Some (lit "out.png")) false
  = Raise (lit "Permission denied").
Proof. vm_compute. reflexivity. Qed.

(* ------------------------------------------------------------------ *)
(** ** Further facts about the engine and the pipeline *)
(* ------------------------------------------------------------------ *)

Lemma spaced_single_spaced : forall s b, spaced b s -> single_spaced s = true.
Proof.
  induction s as [|c r IH]; intros b H; [reflexivity|].
  destruct (spaced_cons_inv _ _ _ H) as [(E & _ & _ & Hr)|(E & Hr)].
  - cbn [single_spaced]. destruct r as [|d r']; [reflexivity|].
    destruct (spaced_cons_inv _ _ _ Hr) as [(_ & Hb & _)|(Ed & _)]; [discriminate|].
    rewrite E, Ed. cbn [andb negb]. exact (IH _ Hr).
  - cbn [single_spaced]. destruct r as [|d r']; [reflexivity|].
    rewrite E. cbn [andb negb]. exact (IH _ Hr).
Qed.

Lemma rstrip_nil_iff : forall s, rstrip s = [] <-> blank s.
Proof.
  intros s. split; [apply rstrip_nil_inv|].
  induction 1 as [|c r Hc Hr IH]; [reflexivity|].
  cbn [rstrip]. now rewrite IH, Hc.
Qed.

Lemma lstrip_nil_iff : forall s, lstrip s = [] <-> blank s.
Proof.
  intros s. split.
  - induction s as [|c r IH]; [constructor|].
    cbn [lstrip]. destruct (is_space c) eqn:E; [|intros H; discriminate H].
    intros H. constructor; [exact E|exact (IH H)].
  - induction 1 as [|c r Hc Hr IH]; [reflexivity|].
    cbn [lstrip]. now rewrite Hc.
Qed.

Lemma lstrip_blank : forall s, blank (lstrip s) -> blank s.
Proof.
  induction s as [|c r IH]; [auto|].
  cbn [lstrip]. destruct (is_space c) eqn:E; [|auto].
  intros H. constructor; [exact E|exact (IH H)].
Qed.

Lemma strip_nil_iff : forall s, strip s = [] <-> blank s.
Proof.
  intros s. unfold strip. rewrite rstrip_nil_iff. split.
  - apply lstrip_blank.
  - intros H. apply (lstrip_Forall _ _ H).
Qed.

Lemma sub_spaces_blank : forall s b, blank (sub_spaces b s) <-> blank s.
Proof.
  induction s as [|c r IH]; intros b; [split; constructor|].
  cbn [sub_spaces]. destruct (is_space c) eqn:E.
  - destruct b.
    + rewrite IH. split; intros H; [constructor; auto|now inversion H].
    + split; intros H.
      * inversion H; subst. constructor; [exact E|]. now apply (IH true).
      * inversion H; subst. constructor; [reflexivity|]. now apply (IH true).
  - split; intros H; inversion H; subst; congruence.
Qed.

Lemma rstrip_length : forall s, (List.length (rstrip s) <= List.length s)%nat.
Proof.
  induction s as [|c r IH]; [auto|].
  cbn [rstrip]. destruct (rstrip r); [destruct (is_space c)|]; simpl in *; lia.
Qed.

Lemma lstrip_length : forall s, (List.length (lstrip s) <= List.length s)%nat.
Proof.
  induction s as [|c r IH]; [auto|].
  cbn [lstrip]. destruct (is_space c); simpl in *; lia.
Qed.

Section CleanTextShape.
Variable alnum : N -> bool.

Lemma cleaned_is_trimmed_and_spaced :
  forall t,
    let u := _clean_text alnum t in
    strip u = u
    /\ single_spaced u = true
    /\ Forall (fun c => is_space c = true -> c = SP) u.
Proof.
  intros t u. subst u. rewrite clean_text_flat.
  split; [apply strip_idem|]. split.
  - eapply spaced_single_spaced, strip_spaced, sub_spaces_spaced.
  - apply strip_Forall, sub_spaces_only_sp.
Qed.

(** X1. Whatever the input, the cleaned text is in normal form: it has no
    white space at either end, no two white-space characters in a row, no
    white space other than the plain space, and no character outside the
    kept set. *)
Theorem clean_text_normal_form :
  forall t,
    let u := _clean_text alnum t in
    strip u = u
    /\ single_spaced u = true
    /\ Forall (fun c => kept alnum c = true /\ (is_space c = true -> c = SP)) u.
Proof.
  intros t u. destruct (cleaned_is_trimmed_and_spaced t) as (H1 & H2 & H3).
  fold u in H1, H2, H3. split; [exact H1|]. split; [exact H2|].
  assert (K : Forall (fun c => kept alnum c = true) u).
  { unfold u. rewrite clean_text_flat. apply strip_Forall.
    apply (sub_spaces_kept alnum _ false (strip_special_kept alnum t)). }
  rewrite Forall_forall in *. intros c Hc. split; auto.
Qed.

(** X2. Cleaning never lengthens a text, and the cleaned text is empty
    exactly when every character of the input is white space or outside the
    kept set. *)
Theorem clean_text_empty_iff :
  forall t,
    (len (_clean_text alnum t) <= len t)%Z
    /\ (_clean_text alnum t = []
        <-> Forall (fun c => kept alnum c = false \/ is_space c = true) t).
Proof.
  intros t. rewrite clean_text_flat. split.
  - unfold len, strip.
    pose proof (rstrip_length (lstrip (sub_spaces false (strip_special alnum t)))).
    pose proof (lstrip_length (sub_spaces false (strip_special alnum t))).
    pose proof (sub_spaces_length (strip_special alnum t) false).
    pose proof (filter_length_le (kept alnum) t). unfold strip_special in *. lia.
  - rewrite strip_nil_iff, sub_spaces_blank. unfold blank, strip_special.
    rewrite !Forall_forall. split.
    + intros H c Hc. destruct (kept alnum c) eqn:K; [|now left].
      right. apply H. apply filter_In. auto.
    + intros H c Hc. apply filter_In in Hc as [Hc K].
      destruct (H c Hc); congruence.
Qed.
End CleanTextShape.

Lemma rstrip_fixed_tail : forall c r, rstrip (c :: r) = c :: r -> rstrip r = r /\ (r = [] -> is_space c = false).
Proof.
  intros c r H. cbn [rstrip] in H. destruct (rstrip r) as [|d r'] eqn:E.
  - destruct (is_space c); [discriminate|]. injection H as <-. auto.
  - injection H as <-. split; [reflexivity|discriminate].
Qed.

Lemma words_and_spaces :
  forall s,
    Forall (fun c => is_space c = true -> c = SP) s ->
    single_spaced s = true -> rstrip s = s ->
    count_words true s = count_spaces s
    /\ (lstrip s = s ->
        count_words false s = match s with [] => 0 | _ :: _ => 1 + count_spaces s end)%Z.
Proof.
  induction s as [|c r IH]; intros HA HB HD; [split; reflexivity|].
  inversion HA as [|? ? Hc HAr]; subst.
  destruct (rstrip_fixed_tail _ _ HD) as [HDr Hne].
  assert (HBr : single_spaced r = true).
  { cbn [single_spaced] in HB. destruct r; [reflexivity|].
    apply andb_true_iff in HB. tauto. }
  destruct (IH HAr HBr HDr) as [IH1 IH2].
  cbn [count_words count_spaces]. destruct (is_space c) eqn:E.
  - rewrite (Hc eq_refl). cbn [N.eqb]. rewrite N.eqb_refl. split.
    + destruct r as [|d r']; [specialize (Hne eq_refl); congruence|].
      cbn [single_spaced] in HB. rewrite E in HB. cbn [andb] in HB.
      destruct (is_space d) eqn:Ed; [discriminate|].
      rewrite IH2; [reflexivity|]. cbn [lstrip]. now rewrite Ed.
    + intros HL. cbn [lstrip] in HL. rewrite <- (Hc eq_refl), E in HL.
      pose proof (lstrip_length r) as L. rewrite HL in L. simpl in L. lia.
  - assert (Hsp : (c =? SP)%N = false).
    { destruct (N.eqb_spec c SP) as [->|]; [discriminate E|reflexivity]. }
    rewrite Hsp. split; [exact IH1|]. intros _. now rewrite IH1.
Qed.

(** X3. The word count of a cleaned text is its number of spaces plus one,
    and zero for the empty text: in a cleaned text every space separates two
    words. *)
Theorem cleaned_words_are_spaces_plus_one :
  forall alnum t,
    let u := _clean_text alnum t in
    count_words false u = match u with [] => 0 | _ :: _ => 1 + count_spaces u end%Z.
Proof.
  intros alnum t u.
  destruct (cleaned_is_trimmed_and_spaced alnum t) as (Hs & Hss & HA).
  fold u in Hs, Hss, HA.
  assert (HD : rstrip u = u).
  { rewrite <- Hs at 1. unfold strip. rewrite rstrip_idem. exact Hs. }
  assert (HL : lstrip u = u).
  { rewrite <- Hs at 1. unfold strip. rewrite lstrip_rstrip, lstrip_idem. exact Hs. }
  exact (proj2 (words_and_spaces u HA Hss HD) HL).
Qed.

Lemma item_in_range :
  forall (A : Type) (l : list A) i (default : A),
    (i < List.length l)%nat -> item l i = Ok (nth i l default).
Proof.
  intros A l i default H. unfold item.
  now rewrite (nth_error_nth' l default H).
Qed.

Lemma item_out_of_range :
  forall (A : Type) (l : list A) i,
    (List.length l <= i)%nat -> item l i = Raise index_error.
Proof.
  intros A l i H. unfold item.
  apply nth_error_None in H. now rewrite H.
Qed.

Lemma item_raises_index_error :
  forall (A : Type) (l : list A) i m, item l i = Raise m -> m = index_error.
Proof.
  intros A l i m. unfold item. destruct (nth_error l i); [discriminate|].
  now intros [= <-].
Qed.

Lemma word_box_at_in_range :
  forall d i, rectangular d -> (i < List.length (td_level d))%nat ->
    word_box_at d i = Ok (if row_is_word d i then Some (row_box d i) else None).
Proof.
  intros d i (H1 & H2 & H3 & H4 & H5 & H6 & H7 & H8) Hi.
  unfold word_box_at, row_is_word, row_box.
  rewrite (item_in_range _ (td_conf d) i 0%Z) by lia. cbn [bind].
  destruct (0 <? nth i (td_conf d) 0)%Z; [|reflexivity].
  rewrite (item_in_range _ (td_text d) i []) by lia. cbn [bind andb].
  destruct (strip (nth i (td_text d) [])); [reflexivity|].
  rewrite (item_in_range _ (td_left d) i 0%Z) by lia.
  rewrite (item_in_range _ (td_top d) i 0%Z) by lia.
  rewrite (item_in_range _ (td_width d) i 0%Z) by lia.
  rewrite (item_in_range _ (td_height d) i 0%Z) by lia.
  rewrite (item_in_range _ (td_line_num d) i 0%Z) by lia.
  rewrite (item_in_range _ (td_block_num d) i 0%Z) by lia.
  reflexivity.
Qed.

Lemma word_boxes_loop_in_range :
  forall d, rectangular d ->
  forall indices words,
    Forall (fun i => (i < List.length (td_level d))%nat) indices ->
    word_boxes_loop d indices words
    = Ok (words ++ map (row_box d) (filter (row_is_word d) indices)).
Proof.
  intros d Hd. induction indices as [|i rest IH]; intros words Hin.
  - cbn. now rewrite app_nil_r.
  - inversion Hin as [|? ? Hi Hrest]; subst.
    cbn [word_boxes_loop filter]. rewrite (word_box_at_in_range d i Hd Hi). cbn [bind].
    destruct (row_is_word d i).
    + rewrite (IH _ Hrest). cbn [map]. now rewrite <- app_assoc.
    + apply (IH _ Hrest).
Qed.

(** X4. On a table whose columns all have one entry per row,
    [_extract_word_boxes] does not raise and returns, in row order, the box
    of every row with a positive score and a text that is not blank, and of
    no other row. *)
Theorem word_boxes_of_rectangular_data :
  forall d, rectangular d ->
    _extract_word_boxes d
    = Ok (map (row_box d) (filter (row_is_word d) (seq 0 (List.length (td_level d))))).
Proof.
  intros d Hd. unfold _extract_word_boxes.
  rewrite (word_boxes_loop_in_range d Hd); [reflexivity|].
  apply Forall_forall. intros i Hi. apply in_seq in Hi. lia.
Qed.

Lemma word_boxes_of_rectangular_data_witness :
  _extract_word_boxes page_data
  = Ok (map (row_box page_data) (filter (row_is_word page_data) (seq 0 3))).
Proof.
  apply (word_boxes_of_rectangular_data page_data).
  repeat split.
Defined.

Lemma word_box_at_raises_index_error :
  forall d i m, word_box_at d i = Raise m -> m = index_error.
Proof.
  intros d i m. unfold word_box_at.
  repeat match goal with
         | |- context [item ?l ?i] =>
             let E := fresh "E" in
             destruct (item l i) eqn:E;
             [cbn [bind]
             |apply item_raises_index_error in E; cbn [bind]; intros [= <-]; exact E]
         | |- context [if ?b then _ else _] => destruct b
         | |- context [match strip ?t with _ => _ end] => destruct (strip t)
         end; discriminate.
Qed.

Lemma word_boxes_loop_short_column :
  forall d k indices words,
    In k indices -> (List.length (td_conf d) <= k)%nat ->
    word_boxes_loop d indices words = Raise index_error.
Proof.
  intros d k. induction indices as [|i rest IH]; intros words Hin Hk; [destruct Hin|].
  cbn [word_boxes_loop].
  destruct (word_box_at d i) as [b|m] eqn:E.
  - cbn [bind]. destruct Hin as [->|Hin]; [|now apply IH].
    unfold word_box_at in E. rewrite (item_out_of_range _ _ _ Hk) in E. discriminate.
  - cbn [bind]. now rewrite (word_box_at_raises_index_error _ _ _ E).
Qed.

(** X5. On a table whose confidence column is shorter than its level column
    the loop of [_extract_word_boxes] runs past the end of the column: it
    raises an index error, and [extract_text] turns the whole recognition,
    text included, into a failed record with that message. *)
Theorem ragged_data_fails_the_recognition :
  forall w self image language config timeout image' raw d,
    ensure_mode w image = Ok image' ->
    image_to_string w image' (map_get LANGUAGE_MAP (str_lower w language) language)
      config timeout = Ok raw ->
    image_to_data w image' (map_get LANGUAGE_MAP (str_lower w language) language) config
      = Ok d ->
    (List.length (td_conf d) < List.length (td_level d))%nat ->
    _extract_word_boxes d = Raise index_error
    /\ snd (extract_text w self image language config timeout)
       = error_result image' language index_error.
Proof.
  intros w self image language config timeout image' raw d Hm Hs Hd Hlen.
  assert (Hb : _extract_word_boxes d = Raise index_error).
  { unfold _extract_word_boxes.
    apply (word_boxes_loop_short_column d (List.length (td_conf d))); [|lia].
    apply in_seq. lia. }
  split; [exact Hb|].
  unfold extract_text. rewrite Hm. unfold recognise. rewrite Hs. cbn [bind].
  rewrite Hd. cbn [bind].
  destruct (avg_confidence_shape (confidences d)) as [Hv|[q Hv]];
    rewrite Hv; cbn [bind]; rewrite Hb; reflexivity.
Qed.

Lemma text_eqb_eq : forall a b, text_eqb a b = true <-> a = b.
Proof.
  intros a b. unfold text_eqb. destruct (list_eq_dec N.eq_dec a b); split; congruence.
Qed.

Lemma map_get_cases :
  forall m k default,
    (map_get m k default = default /\ forall v, ~ In (k, v) m)
    \/ In (k, map_get m k default) m.
Proof.
  induction m as [|[k' v'] m IH]; intros k default; [left; split; [reflexivity|auto]|].
  cbn [map_get]. destruct (text_eqb k k') eqn:E.
  - apply text_eqb_eq in E. subst. right. now left.
  - destruct (IH k default) as [[H1 H2]|H].
    + left. split; [exact H1|]. intros v [H|H]; [|exact (H2 v H)].
      injection H as -> _. assert (text_eqb k k = true) by now apply text_eqb_eq.
      congruence.
    + right. now right.
Qed.

Lemma language_codes_resolve_to_themselves :
  Forall (fun kv => map_get LANGUAGE_MAP (snd kv) (snd kv) = snd kv) LANGUAGE_MAP.
Proof. repeat constructor. Qed.

(** X6. The language handed to the engine: a name whose lower-case form is
    not in the table passes through unchanged, a name whose lower-case form
    is in the table gives the code listed for it, and resolving a resolved
    language changes nothing (lower-casing leaves the codes alone). *)
Theorem language_resolution :
  forall w language,
    Forall (fun kv => str_lower w (snd kv) = snd kv) LANGUAGE_MAP ->
    ((forall v, ~ In (str_lower w language, v) LANGUAGE_MAP) ->
       resolve_language w language = language)
    /\ (forall v, In (str_lower w language, v) LANGUAGE_MAP ->
          In (str_lower w language, resolve_language w language) LANGUAGE_MAP)
    /\ resolve_language w (resolve_language w language) = resolve_language w language.
Proof.
  intros w language Hlow. unfold resolve_language.
  destruct (map_get_cases LANGUAGE_MAP (str_lower w language) language) as [[H1 H2]|H].
  - split; [intros _; exact H1|]. split; [intros v Hv; elim (H2 v Hv)|].
    now rewrite !H1.
  - split.
    + intros Hn. elim (Hn _ H).
    + split; [intros _ _; exact H|].
      set (c := map_get LANGUAGE_MAP (str_lower w language) language) in *.
      rewrite Forall_forall in Hlow. pose proof (Hlow _ H) as L. cbn [snd] in L.
      rewrite L.
      pose proof language_codes_resolve_to_themselves as F.
      rewrite Forall_forall in F. exact (F _ H).
Qed.

(** X7. The fields of a successful record agree with each other: [text] is
    the cleaned [raw_text], [char_count] its length and [word_count] its
    number of words; [language] is the name asked for, [language_code] the
    code it resolves to, and [error] is None. *)
Theorem successful_record_is_consistent :
  forall w self image language config timeout,
    is_success (snd (extract_text w self image language config timeout)) = true ->
    exists raw,
      let r := snd (extract_text w self image language config timeout) in
      let cleaned := _clean_text (unicode_alnum w) raw in
      dict_get "raw_text" r = Some (VStr raw)
      /\ dict_get "text" r = Some (VStr cleaned)
      /\ dict_get "char_count" r = Some (VInt (len cleaned))
      /\ dict_get "word_count" r = Some (VInt (count_words false cleaned))
      /\ dict_get "language" r = Some (VStr language)
      /\ dict_get "language_code" r = Some (VStr (resolve_language w language))
      /\ dict_get "config" r = Some (VStr config)
      /\ dict_get "error" r = Some VNone.
Proof.
  intros w self image language config timeout. unfold extract_text.
  destruct (ensure_mode w image) as [image'|m]; cbn [snd]; [|discriminate].
  unfold recognise.
  destruct (image_to_string w image' _ config timeout) as [raw|m]; cbn [bind snd];
    [|discriminate].
  destruct (image_to_data w image' _ config) as [d|m]; cbn [bind snd]; [|discriminate].
  destruct (avg_confidence (confidences d)) as [v|m]; cbn [bind snd]; [|discriminate].
  destruct (_extract_word_boxes d) as [boxes|m]; cbn [bind snd]; [|discriminate].
  intros _. exists raw. cbv zeta. unfold clean. repeat split.
Qed.

(** X8. Whatever the engine raises, at the text call or at the data call,
    [extract_text] does not raise: it stores and returns the failed record
    that carries the message, and counts one more failure. *)
Theorem engine_error_becomes_failed_record :
  forall w self image language config timeout image' msg,
    ensure_mode w image = Ok image' ->
    (image_to_string w image' (resolve_language w language) config timeout = Raise msg
     \/ exists raw,
          image_to_string w image' (resolve_language w language) config timeout = Ok raw
          /\ image_to_data w image' (resolve_language w language) config = Raise msg) ->
    extract_text w self image language config timeout
    = (record_failure self (error_result image' language msg),
       error_result image' language msg).
Proof.
  intros w self image language config timeout image' msg Hm H.
  unfold extract_text, resolve_language in *. rewrite Hm. unfold recognise.
  destruct H as [H|(raw & H1 & H2)].
  - now rewrite H.
  - rewrite H1. cbn [bind]. now rewrite H2.
Qed.

(** X10. After any history of calls the counters tell what the stored
    records hold: [successful] and [failed] are the numbers of stored records
    that succeeded and that failed, and [total_chars] is the sum of the
    character counts of those that succeeded; tagging a stored record with
    its file name does not disturb them. *)
Theorem counters_tally_the_records :
  forall w calls, tallied (engine_after w calls).
Proof.
  apply engine_after_invariant.
  - exact tallied_init.
  - exact tallied_extract_text.
  - exact tallied_tag.
Qed.

Lemma tag_filename :
  forall f p r, dict_get "filename" (tag f p r) = Some (VStr f)
                /\ dict_get "filepath" (tag f p r) = Some (VStr p).
Proof.
  intros f p r. unfold tag. split.
  - rewrite dict_get_set_other by reflexivity. apply dict_get_set_same.
  - apply dict_get_set_same.
Qed.

(** With a file system that takes every write, saving a tagged record does
    not raise. *)
Lemma save_single_result_ok :
  forall w f p r dir,
    (forall path c, write_file w path c = Ok tt) ->
    reportable r = true ->
    _save_single_result w (tag f p r) dir = Ok tt.
Proof.
  intros w f p r dir Hw Hr. unfold _save_single_result.
  assert (Hr' : reportable (tag f p r) = true) by now rewrite tag_reportable.
  rewrite (reportable_success_of _ Hr'). cbn [bind]. rewrite tag_is_success.
  destruct (is_success r) eqn:Es; cbn [negb]; [|reflexivity].
  unfold dict_item. rewrite (proj1 (tag_filename f p r)). cbn [bind as_text].
  rewrite tag_get by reflexivity.
  unfold reportable, is_success in Hr, Es.
  destruct (dict_get "success" r) as [[| [] | | | | |]|]; try discriminate.
  destruct (dict_get "confidence" r) as [[]|]; try discriminate;
    (destruct (dict_get "char_count" r) as [[]|]; try discriminate);
    (destruct (dict_get "word_count" r); try discriminate);
    (destruct (dict_get "text" r) as [[]|]; try discriminate);
    cbn [bind as_text]; rewrite !Hw; reflexivity.
Qed.

(** With a console that takes every line, the prints that close the [try]
    do not raise on a tagged record of [extract_text]: it carries what they
    read. *)
Lemma announce_extracted :
  forall w self image language config timeout f p,
    (forall n, print_line w n = Ok tt) ->
    announce w (tag f p (snd (extract_text w self image language config timeout))) = Ok tt.
Proof.
  intros w self image language config timeout f p Hp.
  unfold announce, success_of, dict_item. rewrite !tag_get by reflexivity.
  unfold extract_text.
  destruct (ensure_mode w image) as [image'|m]; cbn [snd];
    [|cbn [error_result dict_get String.eqb Ascii.eqb Bool.eqb bind truthy]; apply Hp].
  unfold recognise.
  destruct (image_to_string w image' _ config timeout) as [raw|m]; cbn [bind snd];
    [|cbn [error_result dict_get String.eqb Ascii.eqb Bool.eqb bind truthy]; apply Hp].
  destruct (image_to_data w image' _ config) as [d|m]; cbn [bind snd];
    [|cbn [error_result dict_get String.eqb Ascii.eqb Bool.eqb bind truthy]; apply Hp].
  destruct (avg_confidence_shape (confidences d)) as [Hv|[q Hv]]; rewrite Hv; cbn [bind snd];
    (destruct (_extract_word_boxes d) as [boxes|m]; cbn [bind snd];
     [cbn [dict_get String.eqb Ascii.eqb Bool.eqb bind truthy as_text as_number];
      rewrite Hp; cbn [bind]; apply Hp
     |cbn [error_result dict_get String.eqb Ascii.eqb Bool.eqb bind truthy]; apply Hp]).
Qed.

(** What one turn of the loop adds to [results] and to the engine. *)
Lemma batch_step_adds :
  forall w save dir lang total self results index p,
    exists e' added stop,
      batch_step w save dir lang total (self, results) index p
      = (e', results ++ added, stop)
      /\ ocr_results e' = ocr_results self ++ filter has_filepath added
      /\ (total_images (performance_stats e')
          = total_images (performance_stats self) + len (filter has_filepath added))%Z
      /\ (stop = None ->
          len (filter has_filepath added) = (if opens w p then 1 else 0)%Z).
Proof.
  intros w save dir lang total self results index p. unfold opens.
  destruct (batch_step_cases w save dir lang total self results index p)
    as [(m & ->)|[(m & stop & Ho & ->)|(im & added & stop & Ho & -> & Hadd)]].
  - exists self, [], (Some m). rewrite !app_nil_r. cbn [filter].
    change (len (@nil record)) with 0%Z.
    split; [reflexivity|]. split; [reflexivity|]. split; [lia|discriminate].
  - exists self, [batch_error_result w p m], stop. rewrite Ho. cbn [filter].
    change (has_filepath (batch_error_result w p m)) with false. cbv iota.
    rewrite app_nil_r. change (len (@nil record)) with 0%Z.
    split; [reflexivity|]. split; [reflexivity|]. split; [lia|reflexivity].
  - destruct (extract_text_step w self im lang default_config default_timeout)
      as (_ & Ht & _).
    set (res := tag (basename w p) p
                  (snd (extract_text w self im lang default_config default_timeout))) in *.
    assert (Hfp : has_filepath res = true).
    { unfold has_filepath, res. now rewrite (proj2 (tag_filename _ _ _)). }
    assert (Hf : filter has_filepath (res :: added) = [res]).
    { cbn [filter]. rewrite Hfp.
      destruct Hadd as [->|(m & ->)]; [reflexivity|]. cbn [filter].
      change (has_filepath (batch_error_result w p m)) with false. reflexivity. }
    eexists _, (res :: added), stop. rewrite Ho, Hf.
    split; [reflexivity|]. cbn [with_results ocr_results performance_stats].
    split; [reflexivity|]. split; [rewrite Ht; reflexivity|reflexivity].
Qed.

Lemma batch_turns_adds :
  forall w save dir lang total paths index self results,
    exists e' added stop,
      batch_turns w save dir lang total index paths (self, results)
      = (e', results ++ added, stop)
      /\ ocr_results e' = ocr_results self ++ filter has_filepath added
      /\ (total_images (performance_stats e')
          = total_images (performance_stats self) + len (filter has_filepath added))%Z
      /\ (stop = None ->
          len (filter has_filepath added) = len (filter (opens w) paths)).
Proof.
  intros w save dir lang total.
  induction paths as [|p ps IH]; intros index self results; cbn [batch_turns].
  - exists self, [], None. rewrite !app_nil_r. cbn [filter].
    change (len (@nil record)) with 0%Z.
    split; [reflexivity|]. split; [reflexivity|]. split; [lia|reflexivity].
  - destruct (batch_step_adds w save dir lang total self results index p)
      as (e1 & a1 & stop1 & -> & O1 & T1 & C1).
    destruct stop1 as [m|].
    + exists e1, a1, (Some m). split; [reflexivity|]. split; [exact O1|].
      split; [exact T1|discriminate].
    + destruct (IH (index + 1)%Z e1 (results ++ a1)) as (e2 & a2 & stop2 & -> & O2 & T2 & C2).
      exists e2, (a1 ++ a2), stop2. rewrite O2, O1, T2, T1, filter_app, <- !app_assoc.
      assert (L : len (filter has_filepath a1 ++ filter has_filepath a2)
                  = (len (filter has_filepath a1) + len (filter has_filepath a2))%Z)
        by (unfold len; rewrite length_app; lia).
      split; [reflexivity|]. split; [reflexivity|]. split; [lia|].
      intros E. rewrite L, (C1 eq_refl), (C2 E). cbn [filter].
      destruct (opens w p); [rewrite len_cons|]; lia.
Qed.

(** X11. A batch stores in the engine exactly the records that came back
    from [extract_text], tagged with their file, in order: the records it
    returns that carry a [filepath].  The records of inputs that could not
    be opened, or whose files could not be written, are returned but not
    stored, and [total_images] grows by the number of inputs that opened. *)
Theorem batch_stores_what_it_recognised :
  forall w self image_paths language save_results output_dir,
    match snd (batch_process w self image_paths language save_results output_dir) with
    | Ok results =>
        let e' := fst (batch_process w self image_paths language save_results output_dir) in
        ocr_results e' = ocr_results self ++ filter has_filepath results
        /\ (total_images (performance_stats e')
            = total_images (performance_stats self) + len (filter (opens w) image_paths))%Z
        /\ len (filter has_filepath results) = len (filter (opens w) image_paths)
    | Raise _ => True
    end.
Proof.
  intros w self image_paths language save_results output_dir.
  unfold batch_process.
  destruct (if save_results && negb (path_exists w output_dir)
            then makedirs w output_dir else Ok tt); cbn [snd]; [|exact I].
  unfold batch_loop.
  destruct (batch_turns_adds w save_results output_dir language (len image_paths)
              image_paths 0%Z self []) as (e & added & stop & -> & O & T & C).
  cbn [app]. destruct stop as [m|]; cbn [snd]; [exact I|].
  destruct (if save_results then _save_batch_report w added output_dir else Ok tt);
    cbn [bind snd fst]; [|exact I].
  rewrite <- (C eq_refl). auto.
Qed.

(** One turn of the loop with a console that takes every line and, when
    results are saved, a file system that takes every write: one record is
    appended, and the loop goes on. *)
Lemma batch_step_quiet :
  forall w save dir lang total self results index p,
    (forall n, print_line w n = Ok tt) ->
    (save = false \/ forall path c, write_file w path c = Ok tt) ->
    exists e' r,
      batch_step w save dir lang total (self, results) index p
      = (e', results ++ [r], None)
      /\ dict_get "filename" r = Some (VStr (basename w p))
      /\ has_filepath r = opens w p.
Proof.
  intros w save dir lang total self results index p Hp Hw. unfold batch_step, opens.
  rewrite Hp. destruct (image_open w p) as [im|m].
  - pose proof (announce_extracted w self im lang default_config default_timeout
                  (basename w p) p Hp) as Ha.
    destruct (extract_text_step w self im lang default_config default_timeout)
      as (_ & _ & _ & _ & _ & Hrep).
    destruct (extract_text w self im lang default_config default_timeout) as [e1 res].
    cbn [fst snd] in *.
    assert (Hs : (if save
                  then _save_single_result w (tag (basename w p) p res) dir
                  else Ok tt) = Ok tt).
    { destruct save; [|reflexivity]. destruct Hw as [Hw|Hw]; [discriminate Hw|].
      now apply save_single_result_ok. }
    rewrite Hs. cbn [bind]. rewrite Ha.
    eexists _, (tag (basename w p) p res). split; [reflexivity|].
    split; [apply (proj1 (tag_filename _ _ _))|].
    unfold has_filepath. now rewrite (proj2 (tag_filename _ _ _)).
  - unfold batch_handler. rewrite Hp.
    exists self, (batch_error_result w p m). repeat split.
Qed.

Lemma batch_turns_quiet :
  forall w save dir lang total paths index self results,
    (forall n, print_line w n = Ok tt) ->
    (save = false \/ forall path c, write_file w path c = Ok tt) ->
    exists e' added,
      batch_turns w save dir lang total index paths (self, results)
      = (e', results ++ added, None)
      /\ map (dict_get "filename") added = map (fun p => Some (VStr (basename w p))) paths
      /\ map has_filepath added = map (opens w) paths.
Proof.
  intros w save dir lang total paths index self results Hp Hw.
  revert index self results.
  induction paths as [|p ps IH]; intros index self results; cbn [batch_turns].
  - exists self, []. rewrite app_nil_r. repeat split.
  - destruct (batch_step_quiet w save dir lang total self results index p Hp Hw)
      as (e1 & r & -> & Hf & Ho).
    destruct (IH (index + 1)%Z e1 (results ++ [r])) as (e2 & added & -> & M1 & M2).
    exists e2, (r :: added). rewrite <- app_assoc. cbn [app map].
    split; [reflexivity|]. now rewrite M1, M2, Hf, Ho.
Qed.

(** X12. With a console that takes every line and a file system that takes
    every write, [batch_process] does not raise and returns one record per
    input, in input order: the record at each index carries the base name
    of the input at that index, and it came from the recognition exactly
    when the input could be opened. *)
Theorem batch_keeps_input_order :
  forall w self image_paths language save_results output_dir,
    (forall n, print_line w n = Ok tt) ->
    (forall path c, write_file w path c = Ok tt) ->
    (forall d, makedirs w d = Ok tt) ->
    exists results,
      snd (batch_process w self image_paths language save_results output_dir) = Ok results
      /\ len results = len image_paths
      /\ map (dict_get "filename") results
         = map (fun p => Some (VStr (basename w p))) image_paths
      /\ map has_filepath results = map (opens w) image_paths.
Proof.
  intros w self image_paths language save_results output_dir Hp Hw Hm.
  unfold batch_process.
  assert (Hd : (if save_results && negb (path_exists w output_dir)
                then makedirs w output_dir else Ok tt) = Ok tt).
  { destruct (save_results && negb (path_exists w output_dir)); [apply Hm|reflexivity]. }
  rewrite Hd. unfold batch_loop.
  destruct (batch_turns_quiet w save_results output_dir language (len image_paths)
              image_paths 0%Z self [] Hp (or_intror Hw)) as (e & added & E & M1 & M2).
  destruct (batch_turns_results w save_results output_dir language (len image_paths)
              image_paths 0%Z (self, []) (Forall_nil _)) as [R _].
  rewrite E in R |- *. cbn [fst snd app] in R |- *.
  assert (Hb : (if save_results then _save_batch_report w added output_dir else Ok tt)
               = Ok tt).
  { destruct save_results; [|reflexivity]. unfold _save_batch_report.
    destruct (batch_report_ok added R) as (report & -> & _). cbn [bind]. apply Hw. }
  rewrite Hb. cbn [bind]. exists added. split; [reflexivity|].
  split; [|split; assumption].
  unfold len. f_equal.
  rewrite <- (length_map (dict_get "filename") added), M1. apply length_map.
Qed.

(** X13. With a console that takes every line and without saving, no turn
    of the loop can fail after the append: the loop goes through every
    input and the list has one record per input. *)
Lemma batch_loop_length_without_saving :
  forall w self image_paths language output_dir,
    (forall n, print_line w n = Ok tt) ->
    exists e results,
      batch_loop w false output_dir language self image_paths = (e, results, None)
      /\ len results = len image_paths.
Proof.
  intros w self image_paths language output_dir Hp. unfold batch_loop.
  destruct (batch_turns_quiet w false output_dir language (len image_paths)
              image_paths 0%Z self [] Hp (or_introl eq_refl)) as (e & added & E & M1 & _).
  exists e, added. split; [exact E|].
  unfold len. f_equal.
  rewrite <- (length_map (dict_get "filename") added), M1. apply length_map.
Qed.

(** The hypothesis on the console is needed.  On a console that cannot
    encode the marks, the first input is recognised, stored and appended;
    the print of its preview raises inside the [try]; the handler appends a
    failed record for the same input, and its own print raises out of
    [batch_process]: the second input is never looked at. *)
Example batch_stops_when_the_console_fails :
  snd (batch_process ascii_console_desk init [lit "in/a.png"; lit "in/b.png"]
         (lit "english") false (lit "out"))
  = Raise (lit "'charmap' codec can't encode character")
  /\ map (fun r => (is_success r, dict_get "filename" r))
       (snd (fst (batch_loop ascii_console_desk false (lit "out") (lit "english") init
                    [lit "in/a.png"; lit "in/b.png"])))
     = [(true, Some (VStr (lit "a.png"))); (false, Some (VStr (lit "a.png")))]
  /\ len (ocr_results
            (fst (batch_process ascii_console_desk init [lit "in/a.png"; lit "in/b.png"]
                    (lit "english") false (lit "out")))) = 1%Z.
Proof. repeat split; vm_compute; reflexivity. Qed.

Lemma batch_loop_length_without_saving_witness :
  exists e results,
    batch_loop desk false (lit "out") (lit "english") init
      [lit "in/a.png"; lit "torn.png"; lit "locked.png"]
    = (e, results, None)
    /\ len results = len [lit "in/a.png"; lit "torn.png"; lit "locked.png"].
Proof.
  apply (batch_loop_length_without_saving desk init
           [lit "in/a.png"; lit "torn.png"; lit "locked.png"] (lit "english") (lit "out")).
  intros n. reflexivity.
Defined.

Lemma strip_nonempty_trimmed :
  forall l, nonempty (strip l) = true ->
    strip l <> [] /\ strip (strip l) = strip l.
Proof.
  intros l H. split; [destruct (strip l); [discriminate|discriminate]|apply strip_idem].
Qed.

Lemma Forall_tl : forall (A : Type) (Q : A -> Prop) l, Forall Q l -> Forall Q (tl l).
Proof. intros A Q l H. destruct H; [constructor|assumption]. Qed.

Lemma split_nl_pieces : forall s, Forall no_nl (split_nl s).
Proof.
  induction s as [|c r IH]; cbn [split_nl]; [repeat constructor|].
  destruct (N.eqb_spec c NL) as [E|E]; [constructor; [constructor|exact IH]|].
  destruct (split_nl r) as [|l ls]; [repeat constructor; exact E|].
  inversion IH; subst. constructor; [constructor; assumption|assumption].
Qed.

Lemma strip_no_nl_any : forall s, no_nl s -> no_nl (strip s).
Proof. intros s H. apply strip_Forall, H. Qed.

Lemma trimmed_names_commute :
  forall lines : list text,
    map strip (filter (fun lang => nonempty (strip lang)) lines)
    = filter nonempty (map strip lines).
Proof.
  induction lines as [|l ls IH]; [reflexivity|].
  cbn [filter map]. destruct (nonempty (strip l)); cbn [map]; now rewrite IH.
Qed.

Lemma split_nl_first_line :
  forall header body, no_nl header ->
    split_nl (header ++ NL :: body) = header :: split_nl body.
Proof.
  induction header as [|c r IH]; intros body H.
  - cbn [app split_nl]. now rewrite N.eqb_refl.
  - inversion H as [|? ? Hc Hr]; subst. cbn [app split_nl].
    destruct (N.eqb_spec c NL) as [E|_]; [contradiction|].
    now rewrite (IH body Hr).
Qed.

(** X18. The languages listed after a run of the engine that returned the
    code 0 are the lines of the trimmed output after its first line, each
    trimmed, the blank ones left out, in order.  The first line is dropped
    whatever it holds: the list is that of the lines that follow it.  Every
    language listed is non-empty and carries no white space at either end
    and no line feed, and a run that returns a non-zero code lists
    nothing. *)
Theorem available_languages_are_trimmed :
  forall returncode stdout,
    Forall (fun lang => lang <> [] /\ strip lang = lang /\ no_nl lang)
      (get_available_languages (Ok (returncode, stdout)))
    /\ (returncode = 0%Z ->
        get_available_languages (Ok (returncode, stdout))
        = filter nonempty (map strip (tl (split_nl (strip stdout)))))
    /\ (returncode = 0%Z ->
        forall header body,
          no_nl header -> strip stdout = header ++ NL :: body ->
          get_available_languages (Ok (returncode, stdout))
          = filter nonempty (map strip (split_nl body)))
    /\ (len (get_available_languages (Ok (returncode, stdout)))
        <= Z.max 0 (len (split_nl (strip stdout)) - 1))%Z
    /\ (returncode <> 0%Z -> get_available_languages (Ok (returncode, stdout)) = []).
Proof.
  intros returncode stdout. unfold get_available_languages.
  destruct (Z.eqb_spec returncode 0) as [E|E].
  - split; [|split; [|split; [|split; [|intros H; elim (H E)]]]].
    + apply Forall_forall. intros lang Hin. apply in_map_iff in Hin as (l & <- & Hl).
      apply filter_In in Hl as [Hl Hne].
      destruct (strip_nonempty_trimmed l Hne) as [H1 H2].
      split; [exact H1|]. split; [exact H2|].
      apply strip_no_nl_any.
      pose proof (split_nl_pieces (strip stdout)) as F.
      apply Forall_tl in F. rewrite Forall_forall in F. exact (F l Hl).
    + intros _. apply trimmed_names_commute.
    + intros _ header body Hh Hs. rewrite Hs, (split_nl_first_line header body Hh).
      cbn [tl]. apply trimmed_names_commute.
    + unfold len. rewrite length_map.
      pose proof (filter_length_le (fun lang => nonempty (strip lang))
                    (tl (split_nl (strip stdout)))) as L.
      destruct (split_nl (strip stdout)); cbn [tl List.length] in *; lia.
  - split; [constructor|]. split; [intros H; elim (E H)|].
    split; [intros H; elim (E H)|]. split; [|reflexivity].
    change (len (@nil text)) with 0%Z. lia.
Qed.

(** An output without a header line loses its first language. *)
Example first_language_is_dropped :
  get_available_languages (Ok (0%Z, lit "eng" ++ [NL] ++ lit "fra" ++ [NL] ++ lit "ind" ++ [NL]))
  = [lit "fra"; lit "ind"].
Proof. reflexivity. Qed.

(** X15. The preview that the reports and the CSV export show of a text has
    the length of the text cut at [n], holds no line feed, is its own
    preview, and is the text itself when the text is short enough and has no
    line feed. *)
Theorem preview_is_one_short_line :
  forall n s,
    len (preview n s) = Z.min (Z.of_nat n) (len s)
    /\ no_nl (preview n s)
    /\ preview n (preview n s) = preview n s
    /\ (no_nl s -> (len s <= Z.of_nat n)%Z -> preview n s = s).
Proof.
  intros n s. unfold preview, len.
  assert (Hn : forall l, no_nl (map (fun c => if (c =? NL)%N then SP else c) l)).
  { intros l. unfold no_nl. apply Forall_forall. intros c Hc.
    apply in_map_iff in Hc as (x & <- & _).
    destruct (N.eqb_spec x NL) as [_|H]; [discriminate|exact H]. }
  assert (Hid : forall l, no_nl l -> map (fun c => if (c =? NL)%N then SP else c) l = l).
  { induction l as [|c l IH]; intros H; [reflexivity|].
    inversion H as [|? ? Hc Hl]; subst. cbn [map]. rewrite (IH Hl).
    destruct (N.eqb_spec c NL); [contradiction|reflexivity]. }
  split; [rewrite length_map, length_firstn; lia|]. split; [apply Hn|]. split.
  - rewrite firstn_all2 by (rewrite length_map, length_firstn; lia).
    apply Hid, Hn.
  - intros Hs Hl. rewrite firstn_all2 by lia. apply Hid, Hs.
Qed.

(** X14. After any history of calls the performance report is computed
    without raising; its total is the number of stored records and the sum
    of its two other counts.  With no success it shows no rate, no character
    total and no average; otherwise the rate lies above 0 and at most at
    100, and is 100 exactly when nothing failed. *)
Theorem success_rate_is_a_percentage :
  forall w calls,
    let e := engine_after w calls in
    exists pr,
      get_performance_report e = Ok pr
      /\ pr_total pr = len (ocr_results e)
      /\ (pr_successful pr + pr_failed pr = pr_total pr)%Z
      /\ match pr_success_rate pr with
         | None => pr_successful pr = 0%Z /\ pr_total_chars pr = None /\ pr_avg_conf pr = None
         | Some rate =>
             (0 < pr_successful pr)%Z
             /\ 0 < rate /\ rate <= 100
             /\ (rate == 100 <-> pr_failed pr = 0%Z)
             /\ pr_total_chars pr = Some (total_chars (performance_stats e))
         end.
Proof.
  intros w calls e.
  destruct (engine_after_sound w calls) as [(H1 & H2 & H3 & H4) HF]. fold e in H1, H2, H3, H4, HF.
  destruct (performance_report_ok e (conj (conj H1 (conj H2 (conj H3 H4))) HF))
    as (pr & Hpr & _).
  exists pr. split; [exact Hpr|].
  unfold get_performance_report in Hpr.
  destruct (Z.gtb_spec (successful (performance_stats e)) 0) as [Hpos|Hle].
  - assert (Ht : (total_images (performance_stats e) <> 0)%Z) by lia.
    destruct (py_truediv_ok (inject_Z (successful (performance_stats e))) _ Ht)
      as (ratio & Hratio & Hr).
    rewrite Hratio in Hpr. cbn [bind] in Hpr.
    pose proof (Qred_correct (ratio * 100)) as Hrate.
    remember (Qred (ratio * 100)) as rate eqn:Erate. clear Erate.
    destruct (select true (ocr_results e)) as [sel|]; cbn [bind] in Hpr; [|discriminate].
    destruct (numbers "confidence" sel) as [cs|]; cbn [bind] in Hpr; [|discriminate].
    destruct (match cs with
              | [] => Ok None
              | _ :: _ => q <- py_truediv (py_qsum cs) (inject_Z (len cs)) ;; Ok (Some q)
              end) as [avg|]; cbn [bind] in Hpr; [|discriminate].
    injection Hpr as <-. cbn [pr_total pr_successful pr_failed pr_success_rate pr_total_chars].
    split; [exact H2|]. split; [lia|]. split; [exact Hpos|].
    set (s := successful (performance_stats e)) in *.
    set (t := total_images (performance_stats e)) in *.
    set (f := failed (performance_stats e)) in *.
    assert (Hs : 0 < inject_Z s) by (unfold Qlt; simpl; lia).
    assert (Htq : 0 < inject_Z t) by (unfold Qlt; simpl; lia).
    assert (Hst : inject_Z t == inject_Z s + inject_Z f)
      by (rewrite <- inject_Z_plus; rewrite H1; reflexivity).
    assert (Hf : 0 <= inject_Z f) by (unfold Qle; simpl; lia).
    assert (Hq : ratio * inject_Z t == inject_Z s).
    { rewrite Hr. field. intros Hz. rewrite Hz in Htq. now apply Qlt_irrefl in Htq. }
    assert (Hrp : 0 < ratio)
      by (rewrite Hr; apply Qlt_shift_div_l; [exact Htq|lra]).
    assert (Hr1 : ratio <= 1)
      by (rewrite Hr; apply Qle_shift_div_r; [exact Htq|lra]).
    split; [lra|]. split; [lra|]. split; [|reflexivity].
    split.
    + intros E. assert (Hone : ratio == 1) by lra.
      rewrite Hone in Hq. assert (Hf0 : inject_Z f == 0) by lra.
      unfold Qeq in Hf0. simpl in Hf0. lia.
    + intros E. rewrite E in Hst. change (inject_Z 0) with 0 in Hst.
      assert (Hone : ratio == 1).
      { apply (Qmult_inj_r _ _ (inject_Z t)); [lra|]. rewrite Hq, Hst. lra. }
      lra.
  - injection Hpr as <-. cbn. repeat split; try assumption; lia.
Qed.

Lemma exportable_tag : forall f p r, exportable (tag f p r) = exportable r.
Proof. intros. unfold exportable. now rewrite !tag_get. Qed.

Lemma exportable_after : forall w calls,
  Forall (fun r => exportable r = true) (ocr_results (engine_after w calls)).
Proof.
  apply (engine_after_invariant (fun e => Forall (fun r => exportable r = true) (ocr_results e))).
  - constructor.
  - intros w self image language config timeout H.
    destruct (extract_text_step w self image language config timeout) as (Ha & _).
    rewrite Ha. apply Forall_app. split; [exact H|]. constructor; [|constructor].
    unfold extract_text.
    destruct (ensure_mode w image) as [image'|m]; cbn [snd]; [|reflexivity].
    unfold recognise.
    destruct (image_to_string w image' _ config timeout); cbn [bind snd]; [|reflexivity].
    destruct (image_to_data w image' _ config) as [d|]; cbn [bind snd]; [|reflexivity].
    unfold avg_confidence.
    destruct (confidences d); cbn [bind snd].
    + destruct (_extract_word_boxes d); reflexivity.
    + destruct (py_truediv _ _); cbn [bind snd]; [|reflexivity].
      destruct (_extract_word_boxes d); reflexivity.
  - intros e l r f p H Hl. cbn [with_results ocr_results]. rewrite Hl in H.
    apply Forall_app in H as [H1 H2]. apply Forall_app. split; [exact H1|].
    inversion H2; subst. constructor; [now rewrite exportable_tag|constructor].
Qed.

Lemma write_all_ok :
  forall put items,
    (forall i, put i = Ok tt) ->
    Forall (fun i => exists x, i = Ok x) items ->
    write_all put items = Ok tt.
Proof.
  intros put items Hput. induction 1 as [|i items (x & ->) _ IH]; [reflexivity|].
  cbn [write_all bind]. now rewrite Hput.
Qed.

Lemma csv_row_ok : forall r, exportable r = true -> exists x, csv_row r = Ok x.
Proof.
  intros r H. unfold exportable in H. unfold csv_row, dict_get_default.
  destruct (dict_get "text" r) as [[]|]; try discriminate.
  destruct (dict_get "confidence" r) as [[]|]; try discriminate;
    cbn [as_text as_number bind]; eexists; reflexivity.
Qed.

Lemma txt_block_ok :
  forall r, exportable r = true -> Forall (fun i => exists x, i = Ok x) (txt_block r).
Proof.
  intros r H. unfold exportable in H. unfold txt_block, dict_get_default.
  destruct (dict_get "text" r) as [[]|]; try discriminate.
  destruct (dict_get "confidence" r) as [[]|]; try discriminate;
    cbn [as_text as_number bind];
    (destruct (truthy _); cbn [app]; repeat constructor; eexists; reflexivity).
Qed.

Lemma export_path_ok :
  forall D self format output_file,
    accepting D ->
    Forall (fun r => exportable r = true) (ocr_results self) ->
    export_results D self format output_file
    = Ok (match ocr_results self with
          | [] => lit "No results to export"
          | _ :: _ => output_file ++ lit "." ++ export_extension format
          end).
Proof.
  intros D self format output_file [Ho Hw] HF. unfold export_results, export_extension.
  destruct (ocr_results self) as [|r rs] eqn:E; [reflexivity|].
  destruct (text_eqb format (lit "json")).
  - rewrite Ho, Hw. reflexivity.
  - destruct (text_eqb format (lit "csv")).
    + rewrite Ho. cbn [bind]. rewrite write_all_ok; [reflexivity|apply Hw|].
      constructor; [eexists; reflexivity|].
      apply Forall_forall. intros i Hi. apply in_map_iff in Hi as (x & <- & Hx).
      rewrite Forall_forall in HF. apply csv_row_ok, HF, Hx.
    + rewrite Ho. cbn [bind]. rewrite write_all_ok; [reflexivity|apply Hw|].
      apply Forall_forall. intros i Hi. apply in_flat_map in Hi as (x & Hx & Hi).
      rewrite Forall_forall in HF. pose proof (txt_block_ok x (HF x Hx)) as F.
      rewrite Forall_forall in F. exact (F i Hi).
Qed.

(** X16. On a disk that takes every file, the export of an engine with any
    history raises nothing: every record the engine stores can be laid out
    in each format.  It returns the file name with the extension of the
    format, anything but json and csv being written as txt; or, when
    nothing is stored, a sentence in place of a path. *)
Theorem export_of_stored_results :
  forall D w calls format output_file,
    accepting D ->
    export_results D (engine_after w calls) format output_file
    = Ok (match ocr_results (engine_after w calls) with
          | [] => lit "No results to export"
          | _ :: _ => output_file ++ lit "." ++ export_extension format
          end).
Proof.
  intros D w calls format output_file HD.
  apply export_path_ok; [exact HD|apply exportable_after].
Qed.

Lemma firstn_stem : forall (stem ext : text),
  List.length ext = 4%nat -> firstn (List.length (stem ++ ext) - 4) (stem ++ ext) = stem.
Proof.
  intros stem ext H. rewrite length_app, H.
  replace (List.length stem + 4 - 4)%nat with (List.length stem + 0)%nat by lia.
  rewrite firstn_app_2. cbn [firstn]. apply app_nil_r.
Qed.

(** X17. The desktop front end cuts four characters off the chosen file
    name before it hands it to the export: the name comes back for txt and
    csv, and with two dots for json. *)
Theorem export_dialog_paths :
  forall D w calls stem,
    accepting D ->
    ocr_results (engine_after w calls) <> [] ->
    let e := engine_after w calls in
    do_export D e (lit "txt") (stem ++ lit ".txt") = Some (Ok (stem ++ lit ".txt"))
    /\ do_export D e (lit "csv") (stem ++ lit ".csv") = Some (Ok (stem ++ lit ".csv"))
    /\ do_export D e (lit "json") (stem ++ lit ".json") = Some (Ok (stem ++ lit "..json")).
Proof.
  intros D w calls stem HD Hne e.
  assert (H : forall format name,
             name <> [] ->
             do_export D e format name
             = Some (Ok (firstn (List.length name - 4) name
                         ++ lit "." ++ export_extension format))).
  { intros format name Hn. unfold do_export. destruct name as [|c name]; [contradiction|].
    f_equal. unfold e. rewrite (export_path_ok D _ format _ HD (exportable_after w calls)).
    destruct (ocr_results (engine_after w calls)); [contradiction|reflexivity]. }
  assert (Hn : forall ext : text, ext <> [] -> stem ++ ext <> [])
    by (intros ext He Hs; apply app_eq_nil in Hs as [_ Hs]; contradiction).
  split; [|split].
  - rewrite H by (apply Hn; discriminate). now rewrite firstn_stem.
  - rewrite H by (apply Hn; discriminate). now rewrite firstn_stem.
  - rewrite H by (apply Hn; discriminate).
    replace (stem ++ lit ".json") with ((stem ++ lit ".") ++ lit "json")
      by (rewrite <- app_assoc; reflexivity).
    rewrite firstn_stem by reflexivity.
    rewrite <- app_assoc. reflexivity.
Qed.

Lemma grows_refl : forall self, grows 0 0 self self.
Proof.
  intros self. split; [reflexivity|]. exists []. now rewrite app_nil_r.
Qed.

Lemma grows_log : forall self m, grows 1 1 self (log self m).
Proof. intros self m. split; [reflexivity|]. exists [m]. split; [reflexivity|simpl; lia]. Qed.

Lemma grows_trans :
  forall a b c d s1 s2 s3,
    grows a b s1 s2 -> grows c d s2 s3 -> grows (a + c) (b + d) s1 s3.
Proof.
  intros a b c d s1 s2 s3 [D1 (x & E1 & L1)] [D2 (y & E2 & L2)].
  split; [congruence|]. exists (x ++ y).
  rewrite E2, E1, <- app_assoc, length_app. split; [reflexivity|lia].
Qed.

Lemma grows_weaken :
  forall a b a' b' s1 s2,
    grows a b s1 s2 -> (a' <= a)%nat -> (b <= b')%nat -> grows a' b' s1 s2.
Proof.
  intros a b a' b' s1 s2 [D (x & E & L)] Ha Hb. split; [exact D|].
  exists x. split; [exact E|lia].
Qed.

Lemma load_image_grows : forall P path, step_grows 2 2 (fun s => load_image P s path).
Proof.
  intros P path self out self'. unfold load_image.
  destruct (pil_exists P path); cbn [negb]; [|discriminate].
  destruct (pil_open P path) as [img|m]; [|discriminate].
  intros [= <- <-].
  apply (grows_trans 1 1 1 1 _ _ _ (grows_log _ _) (grows_log _ _)).
Qed.

Lemma convert_to_grayscale_grows :
  forall P image, step_grows 0 1 (fun s => convert_to_grayscale P s image).
Proof.
  intros P image self out self'. unfold convert_to_grayscale.
  destruct (text_eqb (img_mode image) (lit "L")); cbn [negb].
  - intros [= <- <-]. apply (grows_weaken 0 0); [apply grows_refl|lia|lia].
  - destruct (pil_convert P image (lit "L")); cbn [bind]; [|discriminate].
    intros [= <- <-]. apply (grows_weaken 1 1); [apply grows_log|lia|lia].
Qed.

Lemma resize_image_grows :
  forall P fl image scale_factor max_size,
    step_grows 0 1 (fun s => resize_image P fl s image scale_factor max_size).
Proof.
  intros P fl image scale_factor max_size self out self'. unfold resize_image.
  destruct (match scale_factor with
            | Some f => negb (Qeq_bool f 0) && qltb 0 f && negb (Qeq_bool f 1)
            | None => false
            end).
  - destruct (pil_resize P image _); cbn [bind]; [|discriminate].
    intros [= <- <-]. apply (grows_weaken 1 1); [apply grows_log|lia|lia].
  - destruct max_size as [ms|].
    + destruct (fdiv fl (fst ms) _); cbn [bind]; [|discriminate].
      destruct (fdiv fl (snd ms) _); cbn [bind]; [|discriminate].
      destruct (qltb _ 1).
      * destruct (pil_resize P image _); cbn [bind]; [|discriminate].
        intros [= <- <-]. apply (grows_weaken 1 1); [apply grows_log|lia|lia].
      * intros [= <- <-]. apply (grows_weaken 0 0); [apply grows_refl|lia|lia].
    + intros [= <- <-]. apply (grows_weaken 0 0); [apply grows_refl|lia|lia].
Qed.

Lemma resize_if_too_large_grows :
  forall P fl gray, step_grows 0 1 (fun s => resize_if_too_large P fl s gray).
Proof.
  intros P fl gray self out self'. unfold resize_if_too_large.
  destruct (_ >? 2000)%Z.
  - apply (resize_image_grows P fl gray None (Some (1500, 1500)%Z)).
  - intros [= <- <-]. apply (grows_weaken 0 0); [apply grows_refl|lia|lia].
Qed.

Lemma adjust_brightness_contrast_grows :
  forall P image brightness contrast,
    step_grows (List.length (enhancement_entries brightness contrast))
               (List.length (enhancement_entries brightness contrast))
               (fun s => adjust_brightness_contrast P s image brightness contrast).
Proof.
  intros P image brightness contrast self out self'.
  unfold adjust_brightness_contrast, enhancement_entries.
  destruct (Qeq_bool brightness 1); cbn [negb bind].
  - destruct (Qeq_bool contrast 1); cbn [negb bind].
    + intros [= <- <-]. apply grows_refl.
    + destruct (pil_enhance P Contrast image contrast); cbn [bind]; [|discriminate].
      intros [= <- <-]. apply grows_log.
  - destruct (pil_enhance P Brightness image brightness); cbn [bind]; [|discriminate].
    destruct (Qeq_bool contrast 1); cbn [negb bind].
    + intros [= <- <-]. apply grows_log.
    + destruct (pil_enhance P Contrast _ contrast); cbn [bind]; [|discriminate].
      intros [= <- <-].
      apply (grows_trans 1 1 1 1 _ _ _ (grows_log _ _) (grows_log _ _)).
Qed.

Lemma remove_noise_grows :
  forall P image method size,
    step_grows (if supported_method method then 1 else 0)
               (if supported_method method then 1 else 0)
               (fun s => remove_noise P s image method size).
Proof.
  intros P image method size self out self'. unfold remove_noise, supported_method.
  cbn [existsb].
  destruct (text_eqb method (lit "median")); cbn [orb].
  { destruct (pil_filter P image _); cbn [bind]; [|discriminate].
    intros [= <- <-]. apply grows_log. }
  destruct (text_eqb method (lit "gaussian")); cbn [orb].
  { destruct (pil_filter P image _); cbn [bind]; [|discriminate].
    intros [= <- <-]. apply grows_log. }
  destruct (text_eqb method (lit "min")); cbn [orb].
  { destruct (pil_filter P image _); cbn [bind]; [|discriminate].
    intros [= <- <-]. apply grows_log. }
  destruct (text_eqb method (lit "max")); cbn [orb].
  { destruct (pil_filter P image _); cbn [bind]; [|discriminate].
    intros [= <- <-]. apply grows_log. }
  intros [= <- <-]. apply grows_refl.
Qed.

Lemma sharpen_image_grows :
  forall P image strength, step_grows 1 1 (fun s => sharpen_image P s image strength).
Proof.
  intros P image strength self out self'. unfold sharpen_image.
  destruct (pil_enhance P Sharpness image strength); cbn [bind]; [|discriminate].
  intros [= <- <-]. apply grows_log.
Qed.

Lemma apply_threshold_grows :
  forall P image threshold, step_grows 1 1 (fun s => apply_threshold P s image threshold).
Proof.
  intros P image threshold self out self'. unfold apply_threshold.
  destruct (pil_point P image _ _); cbn [bind]; [|discriminate].
  destruct (pil_convert P _ _); cbn [bind]; [|discriminate].
  intros [= <- <-]. apply grows_log.
Qed.

Lemma deskew_image_grows :
  forall P self image, grows 1 1 self (snd (deskew_image P self image)).
Proof.
  intros P self image. unfold deskew_image.
  destruct (pil_autocontrast P image 2); apply grows_log.
Qed.

Lemma display_grows :
  forall P self images, grows 0 1 self (_display_processing_steps P self images).
Proof.
  intros P self images. unfold _display_processing_steps.
  destruct (display P images).
  - apply (grows_weaken 0 0); [apply grows_refl|lia|lia].
  - apply (grows_weaken 1 1); [apply grows_log|lia|lia].
  - apply (grows_weaken 1 1); [apply grows_log|lia|lia].
Qed.

(** X19. Every step of the image pipeline only appends to the step log and
    never touches the debug switch: loading adds two entries, the conversion
    to grayscale and the resize at most one, the enhancement one per factor
    that differs from 1, the noise filter one for a method it knows and none
    otherwise, and sharpening, thresholding and deskewing one each. *)
Theorem steps_only_append :
  forall P fl image,
    (forall path, step_grows 2 2 (fun s => load_image P s path))
    /\ step_grows 0 1 (fun s => convert_to_grayscale P s image)
    /\ (forall scale_factor max_size,
          step_grows 0 1 (fun s => resize_image P fl s image scale_factor max_size))
    /\ (forall brightness contrast,
          step_grows (List.length (enhancement_entries brightness contrast))
                     (List.length (enhancement_entries brightness contrast))
                     (fun s => adjust_brightness_contrast P s image brightness contrast))
    /\ (forall method size,
          step_grows (if supported_method method then 1 else 0)
                     (if supported_method method then 1 else 0)
                     (fun s => remove_noise P s image method size))
    /\ (forall strength, step_grows 1 1 (fun s => sharpen_image P s image strength))
    /\ (forall threshold, step_grows 1 1 (fun s => apply_threshold P s image threshold))
    /\ (forall self, grows 1 1 self (snd (deskew_image P self image))).
Proof.
  intros P fl image.
  split; [intros path; apply load_image_grows|].
  split; [apply convert_to_grayscale_grows|].
  split; [intros s m; apply resize_image_grows|].
  split; [intros b c; apply adjust_brightness_contrast_grows|].
  split; [intros m s; apply remove_noise_grows|].
  split; [intros s; apply sharpen_image_grows|].
  split; [intros t; apply apply_threshold_grows|].
  intros self. apply deskew_image_grows.
Qed.

(** X20. The log of a completed pipeline run opens with the three entries
    of the banner and closes with the three entries of the completion
    notice; between them stand 8 to 12 entries of the steps.  The count in
    the notice is the number of entries logged before it: the step entries
    plus four.  The debug switch is as before, and nothing of the log that
    the processor held before the run is left or has any influence. *)
Theorem pipeline_log_shape :
  forall P fl self image_path output_path show_steps final self',
    full_preprocessing_pipeline P fl self image_path output_path show_steps
    = Ok (final, self') ->
    exists body,
      processing_steps self' = banner ++ body ++ closing (len body + 4)
      /\ (8 <= List.length body <= 12)%nat
      /\ debug_mode self' = debug_mode self
      /\ (forall earlier,
            debug_mode earlier = debug_mode self ->
            full_preprocessing_pipeline P fl earlier image_path output_path show_steps
            = Ok (final, self')).
Proof.
  intros P fl self image_path output_path show_steps final self'.
  assert (Hshape :
    forall dbg final self',
      full_preprocessing_pipeline P fl {| processing_steps := []; debug_mode := dbg |}
        image_path output_path show_steps = Ok (final, self') ->
      exists body,
        processing_steps self' = banner ++ body ++ closing (len body + 4)
        /\ (8 <= List.length body <= 12)%nat
        /\ debug_mode self' = dbg).
  { clear. intros dbg final self'. unfold full_preprocessing_pipeline.
    cbn [debug_mode].
    set (s0 := log (log (log {| processing_steps := []; debug_mode := dbg |} rule)
                      [Str "STARTING OCR PREPROCESSING PIPELINE"]) rule).
    destruct (load_image P s0 image_path) as [[original s1]|] eqn:E1;
      cbn [bind]; [|discriminate].
    apply load_image_grows in E1.
    destruct (convert_to_grayscale P s1 original) as [[gray s2]|] eqn:E2;
      cbn [bind]; [|discriminate].
    apply convert_to_grayscale_grows in E2.
    destruct (resize_if_too_large P fl s2 gray) as [[resized s3]|] eqn:E3;
      cbn [bind]; [|discriminate].
    apply resize_if_too_large_grows in E3.
    destruct (adjust_brightness_contrast P s3 resized (11 # 10) (18 # 10))
      as [[enhanced s4]|] eqn:E4; cbn [bind]; [|discriminate].
    apply adjust_brightness_contrast_grows in E4.
    change (List.length (enhancement_entries (11 # 10) (18 # 10))) with 2%nat in E4.
    destruct (remove_noise P s4 enhanced (lit "median") 3) as [[denoised s5]|] eqn:E5;
      cbn [bind]; [|discriminate].
    apply remove_noise_grows in E5.
    change (if supported_method (lit "median") then 1%nat else 0%nat) with 1%nat in E5.
    destruct (sharpen_image P s5 denoised (13 # 10)) as [[sharpened s6]|] eqn:E6;
      cbn [bind]; [|discriminate].
    apply sharpen_image_grows in E6.
    destruct (apply_threshold P s6 sharpened 160) as [[thresholded s7]|] eqn:E7;
      cbn [bind]; [|discriminate].
    apply apply_threshold_grows in E7.
    pose proof (deskew_image_grows P s7 thresholded) as E8.
    destruct (deskew_image P s7 thresholded) as [final' s8]. cbn [snd] in E8.
    set (saved := match output_path with
                  | Some ((_ :: _) as path) =>
                      _ <- pil_save P final' path ;;
                      Ok (log s8 [Str "Saved processed image to: "; Txt path])
                  | _ => Ok s8
                  end).
    assert (E9 : forall s9, saved = Ok s9 -> grows 0 1 s8 s9).
    { intros s9. unfold saved. destruct output_path as [[|c path]|].
      - intros [= <-]. apply (grows_weaken 0 0); [apply grows_refl|lia|lia].
      - destruct (pil_save P final' (c :: path)); cbn [bind]; [|discriminate].
        intros [= <-]. apply (grows_weaken 1 1); [apply grows_log|lia|lia].
      - intros [= <-]. apply (grows_weaken 0 0); [apply grows_refl|lia|lia]. }
    destruct saved as [s9|]; cbn [bind]; [|discriminate].
    specialize (E9 s9 eq_refl).
    set (images := _ ++ _).
    set (s10 := if show_steps then _display_processing_steps P s9 images else s9).
    assert (E10 : grows 0 1 s9 s10).
    { unfold s10. destruct show_steps; [apply display_grows|].
      apply (grows_weaken 0 0); [apply grows_refl|lia|lia]. }
    intros [= _ <-].
    pose proof (grows_trans _ _ _ _ _ _ _ E1
                 (grows_trans _ _ _ _ _ _ _ E2
                 (grows_trans _ _ _ _ _ _ _ E3
                 (grows_trans _ _ _ _ _ _ _ E4
                 (grows_trans _ _ _ _ _ _ _ E5
                 (grows_trans _ _ _ _ _ _ _ E6
                 (grows_trans _ _ _ _ _ _ _ E7
                 (grows_trans _ _ _ _ _ _ _ E8
                 (grows_trans _ _ _ _ _ _ _ E9 E10))))))))) as [Hd (body & Hb & Hl)].
    cbn [Nat.add] in Hl.
    exists body. unfold log at 1 2 3. cbn [processing_steps debug_mode].
    rewrite Hb. unfold s0, log. cbn [processing_steps debug_mode app].
    split; [|split; [exact Hl|exact Hd]].
    unfold banner, closing. cbn [app]. do 3 f_equal.
    rewrite <- !app_assoc. cbn [app]. do 3 f_equal.
    unfold len. cbn [List.length]. rewrite length_app. cbn [List.length]. do 3 f_equal. lia. }
  intros H.
  destruct (Hshape (debug_mode self) final self' H) as (body & Hb & Hl & Hd).
  exists body. split; [exact Hb|]. split; [exact Hl|]. split; [exact Hd|].
  intros earlier He. rewrite <- H. unfold full_preprocessing_pipeline. now rewrite He.
Qed.

(** X21. The pipeline raises when the source cannot be read: a missing
    file and a file the library cannot decode each stop it with their own
    message, before any step is taken. *)
Theorem unreadable_source_stops_the_pipeline :
  forall P fl self image_path output_path show_steps,
    (pil_exists P image_path = false ->
       full_preprocessing_pipeline P fl self image_path output_path show_steps
       = Raise (lit "Image not found: " ++ image_path))
    /\ (forall msg,
          pil_exists P image_path = true -> pil_open P image_path = Raise msg ->
          full_preprocessing_pipeline P fl self image_path output_path show_steps
          = Raise (lit "Failed to load image: " ++ msg)).
Proof.
  intros P fl self image_path output_path show_steps.
  unfold full_preprocessing_pipeline, load_image. split.
  - intros ->. reflexivity.
  - intros msg -> ->. reflexivity.
Qed.

(** X22. Converting to grayscale twice is converting once: the image that
    comes back has mode [L], and a second call returns it as it is and logs
    nothing. *)
Theorem grayscale_conversion_is_idempotent :
  forall P self image gray self',
    convert_contract P ->
    convert_to_grayscale P self image = Ok (gray, self') ->
    img_mode gray = lit "L"
    /\ convert_to_grayscale P self' gray = Ok (gray, self').
Proof.
  intros P self image gray self' HP. unfold convert_to_grayscale.
  destruct (text_eqb (img_mode image) (lit "L")) eqn:E; cbn [negb].
  - intros [= <- <-]. apply text_eqb_eq in E. split; [exact E|].
    rewrite E. reflexivity.
  - destruct (pil_convert P image (lit "L")) as [g|] eqn:Eg; cbn [bind]; [|discriminate].
    intros [= <- <-]. pose proof (HP _ _ _ Eg) as Hm. split; [exact Hm|].
    rewrite Hm. reflexivity.
Qed.

Lemma studio_convert_contract : convert_contract studio.
Proof. intros im m out [= <-]. reflexivity. Qed.

Lemma grayscale_conversion_is_idempotent_witness :
  img_mode (with_mode page (lit "L")) = lit "L"
  /\ convert_to_grayscale studio (log new_processor [Str "Converted to grayscale"])
       (with_mode page (lit "L"))
     = Ok (with_mode page (lit "L"), log new_processor [Str "Converted to grayscale"]).
Proof.
  apply (grayscale_conversion_is_idempotent studio new_processor page).
  - exact studio_convert_contract.
  - reflexivity.
Defined.

(** X25. An image with an empty side cannot be fitted into a box: the ratio
    of that side divides by zero, and [resize_image] raises. *)
Theorem empty_side_raises_division_by_zero :
  forall P fl self image max_size,
    fst (img_size image) = 0%Z \/ snd (img_size image) = 0%Z ->
    resize_image P fl self image None (Some max_size) = Raise (lit "division by zero").
Proof.
  intros P fl self image max_size H. unfold resize_image, fdiv.
  destruct (Z.eqb_spec (fst (img_size image)) 0) as [_|Hw]; [reflexivity|].
  destruct H as [H|H]; [contradiction|]. rewrite H. reflexivity.
Qed.

Lemma empty_side_raises_division_by_zero_witness :
  resize_image studio exact new_processor (with_size sheet (3000, 0)%Z) None
    (Some (1500, 1500)%Z)
  = Raise (lit "division by zero").
Proof.
  apply (empty_side_raises_division_by_zero studio exact new_processor
           (with_size sheet (3000, 0)%Z) (1500, 1500)%Z).
  right. reflexivity.
Defined.

Lemma py_min_le : forall a b, py_min a b <= a /\ py_min a b <= b.
Proof.
  intros a b. unfold py_min, qltb. destruct (Qle_bool a b) eqn:E; cbn [negb].
  - apply Qle_bool_iff in E. split; [apply Qle_refl|exact E].
  - assert (b < a) by (apply Qnot_le_lt; intros C; apply Qle_bool_iff in C; congruence).
    split; [apply Qlt_le_weak; assumption|apply Qle_refl].
Qed.

Lemma py_min_cases : forall a b, py_min a b = a \/ py_min a b = b.
Proof. intros a b. unfold py_min. destruct (qltb b a); auto. Qed.

Lemma qltb_true : forall a b, qltb a b = true -> a < b.
Proof.
  intros a b H. unfold qltb in H. apply Qnot_le_lt. intros C.
  apply Qle_bool_iff in C. rewrite C in H. discriminate.
Qed.

Lemma inject_Z_lt : forall a b, (a < b)%Z -> inject_Z a < inject_Z b.
Proof. intros a b H. rewrite <- Zlt_Qlt. exact H. Qed.

Lemma inject_Z_nonneg : forall a, (0 <= a)%Z -> 0 <= inject_Z a.
Proof. intros a H. change 0 with (inject_Z 0). now apply inject_Z_le. Qed.

(** A quotient of two sides, rounded. *)
Lemma rounded_quotient :
  forall fl, rounds_to_nearest fl ->
  forall m d : Z, (0 <= m)%Z -> (0 < d)%Z ->
    0 <= fl (inject_Z m / inject_Z d)
    /\ inject_Z d * fl (inject_Z m / inject_Z d) <= inject_Z m * (1 + unit_roundoff)
    /\ inject_Z m * (1 - unit_roundoff) <= inject_Z d * fl (inject_Z m / inject_Z d).
Proof.
  intros fl Hfl m d Hm Hd.
  pose proof (inject_Z_pos d Hd) as HD. pose proof (inject_Z_nonneg m Hm) as HM.
  set (D := inject_Z d) in *. set (M := inject_Z m) in *.
  assert (Hq : M / D * D == M) by (field; intros E; rewrite E in HD; now apply Qlt_irrefl in HD).
  set (q := M / D) in *.
  assert (Hq0 : 0 <= q).
  { destruct (Qlt_le_dec q 0) as [C|C]; [|exact C]. exfalso. nra. }
  destruct (Hfl q Hq0) as [L U]. unfold unit_roundoff in *.
  split; [nra|]. split; nra.
Qed.

(** A side scaled by a ratio below 1 that is at most the rounded quotient of
    the box by the side. *)
Lemma fitted_side :
  forall fl, rounds_to_nearest fl ->
  forall (d m : Z) (ratio : Q),
    (0 < d < side_limit)%Z -> (0 <= m < side_limit)%Z ->
    0 <= ratio -> ratio < 1 ->
    inject_Z d * ratio <= inject_Z m * (1 + unit_roundoff) ->
    (0 <= py_int (fmul fl d ratio) <= Z.min d m)%Z.
Proof.
  intros fl Hfl d m ratio [Hd Hdl] [Hm Hml] Hr0 Hr1 Hrm.
  pose proof (inject_Z_pos d Hd) as HD. pose proof (inject_Z_nonneg m Hm) as HM.
  pose proof (inject_Z_lt _ _ Hdl) as HDl. pose proof (inject_Z_lt _ _ Hml) as HMl.
  unfold side_limit in HDl, HMl.
  change (inject_Z 1125899906842624) with 1125899906842624 in HDl, HMl.
  set (D := inject_Z d) in *. set (M := inject_Z m) in *.
  assert (Hx0 : 0 <= D * ratio) by nra.
  destruct (Hfl (D * ratio) Hx0) as [Ly Uy].
  unfold fmul. fold D. set (x := D * ratio) in *. set (y := fl x) in *.
  unfold unit_roundoff in *.
  assert (Hy0 : 0 <= y) by nra.
  rewrite (py_int_floor y Hy0).
  pose proof (Qfloor_le y) as Fl. pose proof (Qlt_floor y) as Fu.
  rewrite inject_Z_plus in Fu. change (inject_Z 1) with 1 in Fu.
  set (d' := Qfloor y) in *.
  assert (Hxd : x < D) by (unfold x; nra).
  assert (Hyd : y < D + 1) by nra.
  assert (Hym : y < M + 1) by nra.
  assert (H0 : inject_Z (-1) < inject_Z d') by (change (inject_Z (-1)) with (-1); lra).
  assert (H1 : inject_Z d' < inject_Z (d + 1))
    by (rewrite inject_Z_plus; change (inject_Z 1) with 1; fold D; lra).
  assert (H2 : inject_Z d' < inject_Z (m + 1))
    by (rewrite inject_Z_plus; change (inject_Z 1) with 1; fold M; lra).
  rewrite <- Zlt_Qlt in H0, H1, H2. lia.
Qed.

(** X24. With floats that round to nearest and sides below 2 to the power
    50, [resize_image] with a box either returns the image as it is or asks
    the library for a size whose sides are at most those of the image and
    at most those of the box; and an image smaller than the box on both
    sides comes back as it is: the step never enlarges. *)
Theorem resize_fits_the_box :
  forall P fl self image mw mh,
    rounds_to_nearest fl ->
    (0 < fst (img_size image) < side_limit)%Z ->
    (0 < snd (img_size image) < side_limit)%Z ->
    (0 <= mw < side_limit)%Z -> (0 <= mh < side_limit)%Z ->
    (resize_image P fl self image None (Some (mw, mh)) = Ok (image, self)
     \/ exists w' h',
          resize_image P fl self image None (Some (mw, mh))
          = (resized <- pil_resize P image (w', h') ;;
             Ok (resized, log self (resized_entry (mw, mh) (img_size image) (w', h'))))
          /\ (0 <= w' <= Z.min (fst (img_size image)) mw)%Z
          /\ (0 <= h' <= Z.min (snd (img_size image)) mh)%Z)
    /\ ((fst (img_size image) < mw)%Z -> (snd (img_size image) < mh)%Z ->
        resize_image P fl self image None (Some (mw, mh)) = Ok (image, self)).
Proof.
  intros P fl self image mw mh Hfl Hw Hh Hmw Hmh.
  set (w := fst (img_size image)) in *. set (h := snd (img_size image)) in *.
  unfold resize_image, fdiv. cbn [fst snd]. fold w h.
  destruct (Z.eqb_spec w 0) as [|_]; [lia|].
  destruct (Z.eqb_spec h 0) as [|_]; [lia|].
  cbn [bind].
  destruct (rounded_quotient fl Hfl mw w (proj1 Hmw) (proj1 Hw)) as (A0 & A1 & A2).
  destruct (rounded_quotient fl Hfl mh h (proj1 Hmh) (proj1 Hh)) as (B0 & B1 & B2).
  set (r0 := fl (inject_Z mw / inject_Z w)) in *.
  set (r1 := fl (inject_Z mh / inject_Z h)) in *.
  destruct (py_min_le r0 r1) as [L0 L1].
  assert (Hr0 : 0 <= py_min r0 r1) by (destruct (py_min_cases r0 r1) as [-> | ->]; assumption).
  pose proof (inject_Z_pos w (proj1 Hw)) as Pw. pose proof (inject_Z_pos h (proj1 Hh)) as Ph.
  split.
  - destruct (qltb (py_min r0 r1) 1) eqn:E; [right|left; reflexivity].
    apply qltb_true in E.
    exists (py_int (fmul fl w (py_min r0 r1))), (py_int (fmul fl h (py_min r0 r1))).
    split; [reflexivity|]. split.
    + apply (fitted_side fl Hfl); try assumption. nra.
    + apply (fitted_side fl Hfl); try assumption. nra.
  - intros Hlw Hlh.
    assert (H1 : 1 <= py_min r0 r1).
    { pose proof (inject_Z_le (w + 1) mw ltac:(lia)) as Iw.
      pose proof (inject_Z_le (h + 1) mh ltac:(lia)) as Ih.
      rewrite inject_Z_plus in Iw, Ih. change (inject_Z 1) with 1 in Iw, Ih.
      pose proof (inject_Z_lt _ _ (proj2 Hw)) as Uw.
      pose proof (inject_Z_lt _ _ (proj2 Hh)) as Uh.
      unfold side_limit in Uw, Uh.
      change (inject_Z 1125899906842624) with 1125899906842624 in Uw, Uh.
      unfold unit_roundoff in *.
      destruct (py_min_cases r0 r1) as [-> | ->].
      - assert (inject_Z w * 1 <= inject_Z w * r0) by nra. nra.
      - assert (inject_Z h * 1 <= inject_Z h * r1) by nra. nra. }
    assert (E : qltb (py_min r0 r1) 1 = false).
    { destruct (qltb (py_min r0 r1) 1) eqn:E; [|reflexivity].
      apply qltb_true in E. lra. }
    rewrite E. reflexivity.
Qed.

Lemma resize_fits_the_box_witness :
  (resize_image studio exact new_processor sheet None (Some (1000, 1000)%Z)
   = Ok (sheet, new_processor)
   \/ exists w' h',
        resize_image studio exact new_processor sheet None (Some (1000, 1000)%Z)
        = (resized <- pil_resize studio sheet (w', h') ;;
           Ok (resized,
               log new_processor (resized_entry (1000, 1000)%Z (img_size sheet) (w', h'))))
        /\ (0 <= w' <= Z.min (fst (img_size sheet)) 1000)%Z
        /\ (0 <= h' <= Z.min (snd (img_size sheet)) 1000)%Z)
  /\ ((fst (img_size sheet) < 1000)%Z -> (snd (img_size sheet) < 1000)%Z ->
      resize_image studio exact new_processor sheet None (Some (1000, 1000)%Z)
      = Ok (sheet, new_processor)).
Proof.
  apply (resize_fits_the_box studio exact new_processor sheet 1000 1000).
  - exact exact_rounds_to_nearest.
  - simpl; unfold side_limit; lia.
  - simpl; unfold side_limit; lia.
  - unfold side_limit; lia.
  - unfold side_limit; lia.
Defined.

Lemma pipeline_log_shape_witness :
  match full_preprocessing_pipeline studio exact new_processor (lit "scan.png")
          (Some (lit "out.png")) false with
  | Ok (final, self') =>
      exists body,
        processing_steps self' = banner ++ body ++ closing (len body + 4)
        /\ (8 <= List.length body <= 12)%nat
        /\ debug_mode self' = debug_mode new_processor
        /\ (forall earlier,
              debug_mode earlier = debug_mode new_processor ->
              full_preprocessing_pipeline studio exact earlier (lit "scan.png")
                (Some (lit "out.png")) false
              = Ok (final, self'))
  | Raise _ => False
  end.
Proof.
  destruct (full_preprocessing_pipeline studio exact new_processor (lit "scan.png")
              (Some (lit "out.png")) false) as [[final self']|msg] eqn:E.
  - exact (pipeline_log_shape studio exact new_processor (lit "scan.png")
             (Some (lit "out.png")) false final self' E).
  - vm_compute in E. discriminate E.
Defined.

Lemma deskew_image_falls_back_witness :
  deskew_image dim_studio new_processor sheet
  = (sheet, log new_processor [Str "Deskewing not applied"]).
Proof.
  apply (deskew_image_falls_back dim_studio new_processor sheet (lit "image has wrong mode")).
  reflexivity.
Defined.

Lemma ragged_data_fails_the_recognition_witness :
  _extract_word_boxes ragged_data = Raise index_error
  /\ snd (extract_text smudged_desk init page (lit "english") default_config default_timeout)
     = error_result page (lit "english") index_error.
Proof.
  apply (ragged_data_fails_the_recognition smudged_desk init page (lit "english") default_config default_timeout
           page (lit "line one" ++ [NL]) ragged_data).
  - reflexivity.
  - reflexivity.
  - reflexivity.
  - simpl. lia.
Defined.

Lemma language_resolution_witness :
  ((forall v, ~ In (str_lower desk (lit "English"), v) LANGUAGE_MAP) ->
     resolve_language desk (lit "English") = lit "English")
  /\ (forall v, In (str_lower desk (lit "English"), v) LANGUAGE_MAP ->
        In (str_lower desk (lit "English"), resolve_language desk (lit "English"))
          LANGUAGE_MAP)
  /\ resolve_language desk (resolve_language desk (lit "English"))
     = resolve_language desk (lit "English").
Proof.
  apply (language_resolution desk (lit "English")).
  repeat constructor.
Defined.

Lemma successful_record_is_consistent_witness :
  exists raw,
    let r := snd (extract_text desk init page (lit "english") default_config default_timeout) in
    let cleaned := _clean_text (unicode_alnum desk) raw in
    dict_get "raw_text" r = Some (VStr raw)
    /\ dict_get "text" r = Some (VStr cleaned)
    /\ dict_get "char_count" r = Some (VInt (len cleaned))
    /\ dict_get "word_count" r = Some (VInt (count_words false cleaned))
    /\ dict_get "language" r = Some (VStr (lit "english"))
    /\ dict_get "language_code" r = Some (VStr (resolve_language desk (lit "english")))
    /\ dict_get "config" r = Some (VStr default_config)
    /\ dict_get "error" r = Some VNone.
Proof.
  apply (successful_record_is_consistent desk init page (lit "english") default_config default_timeout).
  reflexivity.
Defined.

Lemma engine_error_becomes_failed_record_witness :
  extract_text idle_desk init page (lit "english") default_config default_timeout
  = (record_failure init
       (error_result page (lit "english") (lit "tesseract is not installed")),
     error_result page (lit "english") (lit "tesseract is not installed")).
Proof.
  apply (engine_error_becomes_failed_record idle_desk init page (lit "english") default_config default_timeout
           page (lit "tesseract is not installed")).
  - reflexivity.
  - left. reflexivity.
Defined.

Lemma extract_text_failure_is_populated_witness :
  exists msg size,
    snd (extract_text idle_desk init page (lit "english") default_config default_timeout)
    = [ ("success", VBool false); ("text", VStr []); ("raw_text", VStr []);
        ("language", VStr (lit "english")); ("confidence", VInt 0);
        ("word_count", VInt 0); ("char_count", VInt 0);
        ("error", VStr msg); ("image_size", VSize size) ]%string.
Proof.
  apply (extract_text_failure_is_populated idle_desk init page (lit "english") default_config default_timeout).
  reflexivity.
Defined.

Lemma batch_keeps_input_order_witness :
  exists results,
    snd (batch_process open_desk init [lit "in/a.png"; lit "torn.png"; lit "locked.png"]
           (lit "english") true (lit "out"))
    = Ok results
    /\ len results = len [lit "in/a.png"; lit "torn.png"; lit "locked.png"]
    /\ map (dict_get "filename") results
       = map (fun p => Some (VStr (basename open_desk p)))
           [lit "in/a.png"; lit "torn.png"; lit "locked.png"]
    /\ map has_filepath results
       = map (opens open_desk) [lit "in/a.png"; lit "torn.png"; lit "locked.png"].
Proof.
  apply (batch_keeps_input_order open_desk init
           [lit "in/a.png"; lit "torn.png"; lit "locked.png"] (lit "english") true (lit "out")).
  - intros n. reflexivity.
  - intros path c. reflexivity.
  - intros d. reflexivity.
Defined.

Lemma shelf_accepting : accepting shelf.
Proof. split; intros; reflexivity. Qed.

Lemma export_of_stored_results_witness :
  export_results shelf (engine_after desk [Extract page (lit "english") default_config default_timeout])
    (lit "csv") (lit "ocr_export")
  = Ok (match ocr_results (engine_after desk [Extract page (lit "english") default_config default_timeout]) with
        | [] => lit "No results to export"
        | _ :: _ => lit "ocr_export" ++ lit "." ++ export_extension (lit "csv")
        end).
Proof.
  apply (export_of_stored_results shelf desk [Extract page (lit "english") default_config default_timeout]
           (lit "csv") (lit "ocr_export")).
  exact shelf_accepting.
Defined.

Lemma export_dialog_paths_witness :
  do_export shelf (engine_after desk [Extract page (lit "english") default_config default_timeout])
    (lit "txt") (lit "report" ++ lit ".txt") = Some (Ok (lit "report" ++ lit ".txt"))
  /\ do_export shelf (engine_after desk [Extract page (lit "english") default_config default_timeout])
       (lit "csv") (lit "report" ++ lit ".csv") = Some (Ok (lit "report" ++ lit ".csv"))
  /\ do_export shelf (engine_after desk [Extract page (lit "english") default_config default_timeout])
       (lit "json") (lit "report" ++ lit ".json") = Some (Ok (lit "report" ++ lit "..json")).
Proof.
  apply (export_dialog_paths shelf desk [Extract page (lit "english") default_config default_timeout] (lit "report")).
  - exact shelf_accepting.
  - intros E. vm_compute in E. discriminate E.
Defined.
